(** * sm-ability: scope predicates, template resolution and decoration

    A shallow embedding of [index.js].  JavaScript values are modelled by
    the types the data model gives them: identifiers are strings, optional
    fields are [option]s ([None] is JavaScript's [undefined]), arrays are
    lists, and an exception is the [Throw] arm of [result].  The objects
    [index.js] writes to (users and permission declarations) live in a
    store and are passed by address; entities and roles, which it only
    reads, are values.

    Outside the model: the limits of the engine (call-stack depth, the
    precision of numbers: levels are integers).  A string is a sequence
    of 8-bit characters where JavaScript has UTF-16 code units. *)

From Stdlib Require Import String Ascii List ZArith Bool Lia.
Import ListNotations.
Local Open Scope string_scope.
Local Open Scope Z_scope.
Local Open Scope list_scope.
#[local] Set Warnings "-register-all".

(** ** JSON values and exceptions *)

(** A JSON-serializable value.  Numbers are integers here: the code never
    computes on them, it only copies them and tests them for zero.  An
    object is its list of own properties in enumeration order. *)
Inductive json : Type :=
| JNull
| JBool (b : bool)
| JNum (n : Z)
| JStr (s : string)
| JArr (items : list json)
| JObj (fields : list (string * json)).

(** The values [index.js] can throw: the two [Error]s of the scope
    predicates and of [decorate], the [Error] of [resolveVariables] (which
    carries the offending path), and the engine's own [TypeError] for a
    property read on [undefined]/[null] or a call of a non-function. *)
Inductive exn : Type :=
| TypeError
| UnsupportedSubject (subject : string)
| VariableNotDefined (name : json)
| NoScopeDefined (fcnName : string).

Inductive result (A : Type) : Type :=
| Ok (a : A)
| Throw (e : exn).
Arguments Ok {A} a.
Arguments Throw {A} e.

Definition bind {A B : Type} (m : result A) (k : A -> result B) : result B :=
  match m with
  | Ok a => k a
  | Throw e => Throw e
  end.

Notation "x <- m ;; k" := (bind m (fun x => k))
  (at level 61, m at next level, right associativity).

Section MapM.
Context {A B : Type}.
Variable f : A -> result B.

(** [f] on each element in turn, stopping at the first that throws. *)
Fixpoint mapM (l : list A) : result (list B) :=
  match l with
  | [] => Ok []
  | x :: rest =>
      x' <- f x ;;
      rest' <- mapM rest ;;
      Ok (x' :: rest')
  end.
End MapM.

(** ** Data model *)

(** [{ id, name, entities }].  An absent [entities] field is represented
    by the empty list: the only reader, [_getIds], treats both alike. *)
Inductive Entity : Type :=
  mkEntity { e_id : string; e_name : string; e_entities : list Entity }.

(** The thing acted on.  Every relational field is optional; the
    persisted and the prospective form differ in which ones are there. *)
Record Subject : Type := mkSubject {
  s_id : option string;
  s_entityId : option string;
  s_entity : option Entity;
  s_entityIds : option (list string);
  s_caregiverId : option string;
  s_caregiverIds : option (list string)
}.

(** The rule handed to a scope function; only [rule.subject] is read. *)
Record RuleContext : Type := mkRule { subject : string }.

(** Objects that are written to after their creation live in a store and
    are named by their address: the permission declarations (whose
    [conditions] [decorate] overwrites) and the users (whose [ability]
    [decorateUser] sets).  Two references are the same object exactly
    when the addresses are equal. *)
Definition loc : Type := nat.

Inductive Actions : Type :=
| Action (a : string)
| ActionList (l : list string).

Inductive ScopeDecl : Type :=
| ScopeName (fcnName : string)
| ScopeNames (fcnNames : list string).

(** [{ actions, subject, scope?, conditions? }]. *)
Record PermissionDeclaration : Type := mkPermission {
  p_actions : Actions;
  p_subject : string;
  p_scope : option ScopeDecl;
  p_conditions : option json
}.

(** [{ name, permissions }]; the permissions are references. *)
Record Role : Type := mkRole { role_name : string; permissions : list loc }.

(** The function [(o, rule) => SCOPE_FUNCTIONS[fcnName](user, o, rule)]:
    the two variables it closes over. *)
Record ScopeClosure : Type := mkClosure { c_user : loc; c_fcnName : string }.

Inductive BoundScope : Type :=
| OneScope (f : ScopeClosure)
| ManyScopes (fs : list ScopeClosure).

(** An element of the array [decorate] hands to [new Ability]: the
    declaration object itself ([return p]) or a fresh object
    [{...p, scope}]. *)
Inductive Rule : Type :=
| Declared (p : loc)
| Scoped (actions : Actions) (subj : string) (scope : BoundScope)
    (conditions : option json).

(** The decision object: casl's [Ability], which is outside the
    repository, is represented by the rules it was constructed from. *)
Record Ability : Type := mkAbility { rules : list Rule }.

(** [{ id, entity, roles }], and [ability] once decorated. *)
Record User : Type := mkUser {
  u_id : string;
  u_entity : Entity;
  u_roles : list Role;
  u_ability : option Ability
}.

(** ** JavaScript operators on these values *)

(** [!!x] for an optional string: [undefined] and [""] are falsy. *)
Definition truthy (x : option string) : bool :=
  match x with
  | Some s => negb (s =? "")%string
  | None => false
  end.

(** [a || b] where [b] may throw: [b] is evaluated only when [a] is falsy. *)
Definition or_else (a : option string) (b : result (option string))
  : result (option string) :=
  if truthy a then Ok a else b.

(** [s === x] for a string [s] and an optional string [x]. *)
Definition strict_eq (s : string) (x : option string) : bool :=
  match x with
  | Some t => (s =? t)%string
  | None => false
  end.

(** [subject.entity.id]: a [TypeError] when [subject.entity] is absent. *)
Definition entity_id_of (s : Subject) : result (option string) :=
  match s_entity s with
  | Some e => Ok (Some (e_id e))
  | None => Throw TypeError
  end.

(** ** lodash *)

Fixpoint index_from (l : list string) (value : option string) (i : Z) : Z :=
  match l with
  | [] => -1
  | x :: rest => if strict_eq x value then i else index_from rest value (i + 1)
  end.

(** Modelled from the spec: [lodash.indexof] is a dependency outside the
    repository.  The index of the first element equal to [value], [-1]
    when there is none or when [array] is [undefined]. *)
Definition _indexOf (array : option (list string)) (value : option string) : Z :=
  match array with
  | Some l => index_from l value 0
  | None => -1
  end.

Definition mem (x : string) (l : list string) : bool :=
  existsb (String.eqb x) l.

(** Modelled from the spec: [lodash.intersection] is a dependency outside
    the repository.  The distinct values of the first array that occur in
    the second, in the first array's order; an argument that is not an
    array counts as empty. *)
Definition _intersection (a : list string) (b : option (list string)) : list string :=
  match b with
  | Some l => nodup string_dec (filter (fun x => mem x l) a)
  | None => []
  end.

(** ** Scope functions *)

Definition ScopeFunction : Type := User -> Subject -> RuleContext -> result bool.

Definition IS_PRIMARY_CAREGIVER : ScopeFunction := fun user patient rule =>
  Ok (strict_eq (u_id user) (s_caregiverId patient)).

Definition IS_CAREGIVER : ScopeFunction := fun user patient rule =>
  p <- IS_PRIMARY_CAREGIVER user patient rule ;;
  if p then Ok true
  else
    match s_caregiverIds patient with
    | None => Ok false
    | Some caregiverIds =>
        Ok (if _indexOf (Some caregiverIds) (Some (u_id user)) =? -1
            then false else true)
    end.

Definition BELONGS_TO_ENTITY : ScopeFunction := fun user subj rule =>
  if (subject rule =? "User")%string then
    subjectEntityId <- or_else (s_entityId subj) (entity_id_of subj) ;;
    Ok (strict_eq (e_id (u_entity user)) subjectEntityId)
  else if (subject rule =? "Entity")%string then
    subjectEntityId <- or_else (s_entityId subj) (Ok (s_id subj)) ;;
    Ok (strict_eq (e_id (u_entity user)) subjectEntityId)
  else if (subject rule =? "Patient")%string then
    let subjectEntityIds :=
      if truthy (s_entityId subj)
      then match s_entityId subj with Some i => Some [i] | None => None end
      else s_entityIds subj in
    Ok (if _indexOf subjectEntityIds (Some (e_id (u_entity user))) =? -1
        then false else true)
  else Throw (UnsupportedSubject (subject rule)).

(** [ids.push] is the returned list; [forEach] is the left fold that
    threads it through the children. *)
Fixpoint _getIds (entity : Entity) (ids : list string) (levels level : Z)
  : list string :=
  match entity with
  | mkEntity id _ entities =>
      let ids := ids ++ [id] in
      match entities with
      | [] => ids
      | _ :: _ =>
          if level =? levels then ids
          else fold_left (fun ids e => _getIds e ids levels (level + 1)) entities ids
      end
  end.

Definition _entityMembership (userEntityIds : list string) (subj : Subject)
  (rule : RuleContext) : result bool :=
  if (subject rule =? "User")%string then
    subjectEntityId <- or_else (s_entityId subj) (entity_id_of subj) ;;
    Ok (if _indexOf (Some userEntityIds) subjectEntityId =? -1 then false else true)
  else if (subject rule =? "Entity")%string then
    subjectEntityId <- or_else (s_entityId subj) (Ok (s_id subj)) ;;
    Ok (if _indexOf (Some userEntityIds) subjectEntityId =? -1 then false else true)
  else if (subject rule =? "Patient")%string then
    let subjectEntityIds :=
      if truthy (s_entityId subj)
      then match s_entityId subj with Some i => Some [i] | None => None end
      else s_entityIds subj in
    Ok (if (Z.of_nat (length (_intersection userEntityIds subjectEntityIds)) =? 0)
        then false else true)
  else Throw (UnsupportedSubject (subject rule)).

Definition BELONGS_TO_SUB_ENTITIES : ScopeFunction := fun user subj rule =>
  direct <- BELONGS_TO_ENTITY user subj rule ;;
  if direct then Ok true
  else
    let userEntityIds := _getIds (u_entity user) [] 1 0 in
    _entityMembership userEntityIds subj rule.

Definition BELONGS_TO_ENTITY_TREE : ScopeFunction := fun user subj rule =>
  direct <- BELONGS_TO_ENTITY user subj rule ;;
  if direct then Ok true
  else
    let userEntityIds := _getIds (u_entity user) [] 10000 0 in
    _entityMembership userEntityIds subj rule.

Definition SCOPE_FUNCTIONS : list (string * ScopeFunction) :=
  [ ("IS_PRIMARY_CAREGIVER", IS_PRIMARY_CAREGIVER);
    ("IS_CAREGIVER", IS_CAREGIVER);
    ("BELONGS_TO_ENTITY", BELONGS_TO_ENTITY);
    ("BELONGS_TO_SUB_ENTITIES", BELONGS_TO_SUB_ENTITIES);
    ("BELONGS_TO_ENTITY_TREE", BELONGS_TO_ENTITY_TREE) ].

(** ** The entity tree, as the specification speaks of it *)

(** The ids of every entity of the subtree, root first. *)
Fixpoint subtreeIds (e : Entity) : list string :=
  match e with
  | mkEntity id _ entities => id :: flat_map subtreeIds entities
  end.

(** The ids of the entities at most [n] levels below the root. *)
Fixpoint subtreeIdsWithin (n : nat) (e : Entity) : list string :=
  match n with
  | O => [e_id e]
  | S k => e_id e :: flat_map (subtreeIdsWithin k) (e_entities e)
  end.

(** The number of levels below the root: [0] for an entity without
    children. *)
Fixpoint depth (e : Entity) : nat :=
  match e with
  | mkEntity _ _ entities =>
      fold_right (fun c d => Nat.max (S (depth c)) d) O entities
  end.

Definition opt_to_list (x : option string) : list string :=
  match x with
  | Some i => [i]
  | None => []
  end.

Definition olist (o : option (list string)) : list string :=
  match o with
  | Some l => l
  | None => []
  end.

(** The subject's resolved entity id, or for a patient its list of
    entity ids, as the three membership predicates read them. *)
Definition resolvedEntityIds (subj : Subject) (rule : RuleContext)
  : result (list string) :=
  if (subject rule =? "User")%string then
    x <- or_else (s_entityId subj) (entity_id_of subj) ;; Ok (opt_to_list x)
  else if (subject rule =? "Entity")%string then
    x <- or_else (s_entityId subj) (Ok (s_id subj)) ;; Ok (opt_to_list x)
  else if (subject rule =? "Patient")%string then
    Ok (if truthy (s_entityId subj) then opt_to_list (s_entityId subj)
        else olist (s_entityIds subj))
  else Throw (UnsupportedSubject (subject rule)).

(** [l1] is [l2] with some elements left out. *)
Inductive subseq : list string -> list string -> Prop :=
| subseq_nil : subseq [] []
| subseq_skip : forall x l1 l2, subseq l1 l2 -> subseq l1 (x :: l2)
| subseq_keep : forall x l1 l2, subseq l1 l2 -> subseq (x :: l1) (x :: l2).

(** ** Conditions templates *)

Fixpoint assoc {A : Type} (key : string) (fields : list (string * A)) : option A :=
  match fields with
  | [] => None
  | (k, v) :: rest => if (k =? key)%string then Some v else assoc key rest
  end.

(** [!!v] for a JSON value. *)
Definition json_truthy (v : json) : bool :=
  match v with
  | JNull => false
  | JBool b => b
  | JNum n => negb (n =? 0)
  | JStr s => negb (s =? "")%string
  | JArr _ | JObj _ => true
  end.

(** [rawValue[0]]: the first character of a string, the first element of
    an array, the property ["0"] of an object, [undefined] on a number or
    a boolean, and a [TypeError] on [null]. *)
Definition index0 (rawValue : json) : result (option json) :=
  match rawValue with
  | JNull => Throw TypeError
  | JBool _ | JNum _ => Ok None
  | JStr EmptyString => Ok None
  | JStr (String c _) => Ok (Some (JStr (String c EmptyString)))
  | JArr items => Ok (hd_error items)
  | JObj fields => Ok (assoc "0" fields)
  end.

(** [x !== '$']. *)
Definition not_dollar (x : option json) : bool :=
  match x with
  | Some (JStr s) => negb (s =? "$")%string
  | _ => true
  end.

(** [rawValue.slice(2, -1)]: strings and arrays have the method; on an
    object the call is a [TypeError]. *)
Definition slice_2_m1 (rawValue : json) : result json :=
  match rawValue with
  | JStr s => Ok (JStr (substring 2 (String.length s - 3) s))
  | JArr items => Ok (JArr (firstn (length items - 3) (skipn 2 items)))
  | _ => Throw TypeError
  end.

Section Lodash.

(** [lodash.get] is a dependency outside the repository: the value at
    [path] inside [object], [None] for [undefined]. *)
Variable _get : json -> json -> option json.

Section Reviver.
Variable variables : json.

(** The function handed to [JSON.parse]. *)
Definition reviver (rawValue : json) : result json :=
  x <- index0 rawValue ;;
  if not_dollar x then Ok rawValue
  else
    name <- slice_2_m1 rawValue ;;
    match _get variables name with
    | None => Throw (VariableNotDefined name)
    | Some value => Ok value
    end.

(** [JSON.parse(text, reviver)] on the text of [v]: the members of an
    array or object are revived first, in order, then the value
    itself. *)
Fixpoint revive (v : json) : result json :=
  match v with
  | JArr items =>
      items' <- mapM revive items ;;
      reviver (JArr items')
  | JObj fields =>
      fields' <- mapM (fun kv => x' <- revive (snd kv) ;; Ok (fst kv, x'))
                   fields ;;
      reviver (JObj fields')
  | _ => reviver v
  end.
End Reviver.

(** [JSON.stringify] followed by [JSON.parse] rebuilds a
    JSON-serializable value as it is; what is left is the reviver's
    walk. *)
Definition resolveVariables (template variables : json) : result json :=
  revive variables template.

End Lodash.

(** ** The store *)

(** The objects that are written to: users and permission declarations,
    by address. *)
Record Store : Type := mkStore {
  users : loc -> User;
  declarations : loc -> PermissionDeclaration
}.

(** A computation that reads and writes the store and may throw; the
    writes made before a throw stay. *)
Definition M (A : Type) : Type := Store -> result A * Store.

Definition ret {A : Type} (a : A) : M A := fun st => (Ok a, st).

Definition throw {A : Type} (e : exn) : M A := fun st => (Throw e, st).

Definition bindM {A B : Type} (m : M A) (k : A -> M B) : M B :=
  fun st =>
    match m st with
    | (Ok a, st') => k a st'
    | (Throw e, st') => (Throw e, st')
    end.

Notation "x <~ m ;; k" := (bindM m (fun x => k))
  (at level 61, m at next level, right associativity).

Definition gets {A : Type} (f : Store -> A) : M A := fun st => (Ok (f st), st).

Definition modify (f : Store -> Store) : M unit := fun st => (Ok tt, f st).

Definition lift {A : Type} (r : result A) : M A := fun st => (r, st).

Section MapS.
Context {A B : Type}.
Variable f : A -> M B.

(** [array.map(f)] for an [f] that works on the store. *)
Fixpoint mapS (l : list A) : M (list B) :=
  match l with
  | [] => ret []
  | x :: rest =>
      x' <~ f x ;;
      rest' <~ mapS rest ;;
      ret (x' :: rest')
  end.
End MapS.

(** [p.conditions = c]. *)
Definition set_conditions (p : loc) (c : json) (st : Store) : Store :=
  mkStore (users st)
    (fun l =>
       if Nat.eqb l p then
         mkPermission (p_actions (declarations st p))
           (p_subject (declarations st p)) (p_scope (declarations st p)) (Some c)
       else declarations st l).

(** [user.ability = a]. *)
Definition set_ability (user : loc) (a : Ability) (st : Store) : Store :=
  mkStore
    (fun l =>
       if Nat.eqb l user then
         mkUser (u_id (users st user)) (u_entity (users st user))
           (u_roles (users st user)) (Some a)
       else users st l)
    (declarations st).

(** *** The user as the object a template path is looked up in *)

Fixpoint entity_json (e : Entity) : json :=
  match e with
  | mkEntity id name entities =>
      JObj [("id", JStr id); ("name", JStr name);
            ("entities", JArr (map entity_json entities))]
  end.

Definition actions_json (a : Actions) : json :=
  match a with
  | Action s => JStr s
  | ActionList l => JArr (map JStr l)
  end.

Definition scope_json (s : ScopeDecl) : json :=
  match s with
  | ScopeName n => JStr n
  | ScopeNames l => JArr (map JStr l)
  end.

Definition declaration_json (d : PermissionDeclaration) : json :=
  JObj ([("actions", actions_json (p_actions d)); ("subject", JStr (p_subject d))]
        ++ match p_scope d with Some s => [("scope", scope_json s)] | None => [] end
        ++ match p_conditions d with Some c => [("conditions", c)] | None => [] end).

Definition role_json (st : Store) (r : Role) : json :=
  JObj [("name", JStr (role_name r));
        ("permissions",
          JArr (map (fun p => declaration_json (declarations st p))
                  (permissions r)))].

(** The data of the user object; the decision object an earlier
    decoration may have attached is not data and is left out. *)
Definition user_json (st : Store) (user : loc) : json :=
  JObj [("id", JStr (u_id (users st user)));
        ("entity", entity_json (u_entity (users st user)));
        ("roles", JArr (map (role_json st) (u_roles (users st user))))].

(** ** Decoration *)

(** The properties every object literal inherits from
    [Object.prototype]; [SCOPE_FUNCTIONS[name]] finds them as it finds
    the five own properties, and each of them is truthy. *)
Definition Object_prototype : list string :=
  [ "constructor"; "__defineGetter__"; "__defineSetter__"; "hasOwnProperty";
    "__lookupGetter__"; "__lookupSetter__"; "isPrototypeOf";
    "propertyIsEnumerable"; "toString"; "valueOf"; "__proto__";
    "toLocaleString" ].

(** [!!SCOPE_FUNCTIONS[fcnName]]. *)
Definition scope_found (fcnName : string) : bool :=
  match assoc fcnName SCOPE_FUNCTIONS with
  | Some _ => true
  | None => mem fcnName Object_prototype
  end.

(** [fcnNames], or [None] when [!p.scope]: an absent scope and the empty
    string are falsy, an array never is. *)
Definition scope_names (d : PermissionDeclaration) : option (list string) :=
  match p_scope d with
  | None => None
  | Some (ScopeName n) => if (n =? "")%string then None else Some [n]
  | Some (ScopeNames l) => Some l
  end.

(** The user after [_cloneDeep]: no object of the copy is an object of
    the store, so the copy is a value. *)
Record RoleCopy : Type := mkRoleCopy {
  rc_name : string;
  rc_permissions : list PermissionDeclaration
}.

Record UserCopy : Type := mkUserCopy {
  uc_id : string;
  uc_entity : Entity;
  uc_roles : list RoleCopy;
  uc_ability : option Ability
}.

(** Modelled from the spec: [lodash.clonedeep] is a dependency outside
    the repository.  A deep copy of the user as the store has it.  The
    [ability] slot of the copy is left empty: [decorateUserImmutable]
    overwrites it before anything reads it. *)
Definition _cloneDeep (user : loc) (st : Store) : UserCopy :=
  mkUserCopy (u_id (users st user)) (u_entity (users st user))
    (map (fun r => mkRoleCopy (role_name r) (map (declarations st) (permissions r)))
       (u_roles (users st user)))
    None.

Section Decorate.
Variable _get : json -> json -> option json.

(** The callback of [permissions.map] in [decorate]. *)
Definition bind_scope (user : loc) (p : loc) : M Rule :=
  d <~ gets (fun st => declarations st p) ;;
  _ <~ match p_conditions d with
       | Some c =>
           if json_truthy c then
             u <~ gets (fun st => user_json st user) ;;
             c' <~ lift (resolveVariables _get c (JObj [("user", u)])) ;;
             modify (set_conditions p c')
           else ret tt
       | None => ret tt
       end ;;
  d <~ gets (fun st => declarations st p) ;;
  match scope_names d with
  | None => ret (Declared p)
  | Some fcnNames =>
      match find (fun fcnName => negb (scope_found fcnName)) fcnNames with
      | Some fcnName => throw (NoScopeDefined fcnName)
      | None =>
          match fcnNames with
          | [fcnName] =>
              ret (Scoped (p_actions d) (p_subject d)
                     (OneScope (mkClosure user fcnName)) (p_conditions d))
          | _ =>
              ret (Scoped (p_actions d) (p_subject d)
                     (ManyScopes (map (mkClosure user) fcnNames))
                     (p_conditions d))
          end
      end
  end.

Definition decorate (user : loc) : M Ability :=
  roles <~ gets (fun st => u_roles (users st user)) ;;
  rules <~ mapS (bind_scope user) (flat_map permissions roles) ;;
  ret (mkAbility rules).

Definition decorateUser (user : loc) : M unit :=
  a <~ decorate user ;;
  modify (set_ability user a).

Definition decorateUserImmutable (user : loc) : M UserCopy :=
  iuser <~ gets (_cloneDeep user) ;;
  a <~ decorate user ;;
  ret (mkUserCopy (uc_id iuser) (uc_entity iuser) (uc_roles iuser) (Some a)).

End Decorate.

(** *** Substitution, as the specification describes it *)

Definition starts_with_dollar (s : string) : bool :=
  match s with
  | String c _ => Ascii.eqb c "$"
  | EmptyString => false
  end.

Section Substitution.
Variable _get : json -> json -> option json.
Variable variables : json.

(** A recursive descent that touches strings only: one that starts with
    ['$'] is replaced by the value at the path it encloses. *)
Fixpoint substitute (t : json) : result json :=
  match t with
  | JStr s =>
      if starts_with_dollar s then
        let name := JStr (substring 2 (String.length s - 3) s) in
        match _get variables name with
        | None => Throw (VariableNotDefined name)
        | Some value => Ok value
        end
      else Ok (JStr s)
  | JArr items =>
      items' <- mapM substitute items ;;
      Ok (JArr items')
  | JObj fields =>
      fields' <- mapM (fun kv => x' <- substitute (snd kv) ;; Ok (fst kv, x'))
                   fields ;;
      Ok (JObj fields')
  | other => Ok other
  end.
End Substitution.

(** [null] occurs somewhere in the value. *)
Fixpoint contains_null (t : json) : bool :=
  match t with
  | JNull => true
  | JArr items => existsb contains_null items
  | JObj fields => existsb (fun kv => contains_null (snd kv)) fields
  | _ => false
  end.

Section Misread.
Variable _get : json -> json -> option json.
Variable variables : json.

(** [x] is a string starting with ['$'] and the value at the path it
    encloses is the one-character string ["$"]. *)
Definition resolves_to_dollar (x : json) : bool :=
  match x with
  | JStr s =>
      starts_with_dollar s
      && match _get variables (JStr (substring 2 (String.length s - 3) s)) with
         | Some (JStr v) => (v =? "$")%string
         | _ => false
         end
  | _ => false
  end.

(** Somewhere in the template the first element of an array, or the
    property ["0"] of an object, resolves to the string ["$"]: the
    container itself is then taken for a placeholder. *)
Fixpoint misread (t : json) : bool :=
  match t with
  | JArr items =>
      match items with x :: _ => resolves_to_dollar x | [] => false end
      || existsb misread items
  | JObj fields =>
      match assoc "0" fields with Some x => resolves_to_dollar x | None => false end
      || existsb (fun kv => misread (snd kv)) fields
  | _ => false
  end.
End Misread.

(** The exact placeholder form. *)
Definition placeholder (path : string) : string := "${" ++ path ++ "}".

Fixpoint split_dots (s : string) (current : string) : list string :=
  match s with
  | EmptyString => [current]
  | String "." rest => current :: split_dots rest ""
  | String c rest => split_dots rest (current ++ String c EmptyString)
  end.

Fixpoint walk_path (v : json) (keys : list string) : option json :=
  match keys with
  | [] => Some v
  | k :: rest =>
      match v with
      | JObj fields =>
          match assoc k fields with
          | Some x => walk_path x rest
          | None => None
          end
      | _ => None
      end
  end.

(** Modelled from the spec: [lodash.get] is a dependency outside the
    repository.  Dotted-path lookup through nested objects: the path
    [a.b.c] names property [c] of property [b] of property [a]; a step
    that is missing, or taken on a value that is not an object, gives
    [undefined].  Only a string is taken as a path here. *)
Definition dotted_get (object path : json) : option json :=
  match path with
  | JStr s => walk_path object (split_dots s "")
  | _ => None
  end.

(** ** What decoration may write *)

(** The [conditions] of a rule as the store [st] has them: for a
    declaration handed over as it is, those of the declaration. *)
Definition rule_conditions (st : Store) (r : Rule) : option json :=
  match r with
  | Declared p => p_conditions (declarations st p)
  | Scoped _ _ _ c => c
  end.

(** Between two stores, nothing differs but the [conditions] of
    permission declarations. *)
Definition only_conditions_written (st st' : Store) : Prop :=
  users st' = users st
  /\ forall l,
       p_actions (declarations st' l) = p_actions (declarations st l)
       /\ p_subject (declarations st' l) = p_subject (declarations st l)
       /\ p_scope (declarations st' l) = p_scope (declarations st l).

(** ** Sample data *)

(** *** The hierarchy, users and patients of [t/test-changes.js] *)

Definition HTA1 : Entity := mkEntity "hta1" "HTA1" [].
Definition HTA2 : Entity := mkEntity "hta2" "HTA2" [].
Definition SE1 : Entity := mkEntity "se1" "SE1" [].
Definition SE2 : Entity := mkEntity "se2" "SE2" [].
Definition CVS : Entity := mkEntity "cvs" "CVS" [HTA1; HTA2].
Definition CVSPilot : Entity := mkEntity "cvsp" "CVS Pilot" [SE1; SE2].
Definition SmartMonitor : Entity := mkEntity "sm" "Smart Monitor" [CVS; CVSPilot].

Definition nurseHTA1 : User := mkUser "uid3" HTA1 [] None.
Definition managerForCVS : User := mkUser "uid7" CVS [] None.
Definition userAdminForHTA1 : User := mkUser "uid9" HTA1 [] None.
Definition entityAdminForSM : User := mkUser "uid10" SmartMonitor [] None.

Definition patientHTA1 : Subject :=
  mkSubject (Some "pid1") None None (Some ["hta1"]) (Some "uid3") None.
Definition patientHTA1HTA2 : Subject :=
  mkSubject (Some "pid2") None None (Some ["hta1"; "hta2"]) (Some "uid4") None.
Definition patientSE1 : Subject :=
  mkSubject (Some "pid3") None None (Some ["se1"]) (Some "uid5") None.

(** An entity, and a user, as the subject of a check. *)
Definition entitySubject (e : Entity) : Subject :=
  mkSubject (Some (e_id e)) None None None None None.

Definition userSubject (u : User) : Subject :=
  mkSubject (Some (u_id u)) None (Some (u_entity u)) None None None.

(** The prospective user or entity [{entityId}]. *)
Definition prospective (entityId : string) : Subject :=
  mkSubject None (Some entityId) None None None None.

(** *** Further subjects and hierarchies *)

(** The subject [{}]. *)
Definition emptySubject : Subject := mkSubject None None None None None None.

(** An entity whose only child carries the parent's id. *)
Definition twinEntity : Entity := mkEntity "a" "A" [mkEntity "a" "A again" []].

(** A chain of [n] entities above [leaf], each the only child of the one
    before. *)
Fixpoint chain (n : nat) (leaf : Entity) : Entity :=
  match n with
  | O => leaf
  | S k => mkEntity "n" "N" [chain k leaf]
  end.

(** A hierarchy whose last entity sits 10001 levels below the root, a
    user of the root, and the last entity as the subject of a check. *)
Definition leafEntity : Entity := mkEntity "leaf" "Leaf" [].
Definition deepEntity : Entity := chain (Z.to_nat 10001) leafEntity.
Definition deepUser : User := mkUser "uid0" deepEntity [] None.
Definition leafSubject : Subject := entitySubject leafEntity.

(** *** Templates and stores *)

(** The object [{user}] for the nurse of HTA1, without her roles. *)
Definition nurseVariables : json :=
  JObj [("user", JObj [("id", JStr "uid3");
                       ("entity", JObj [("id", JStr "hta1");
                                        ("name", JStr "HTA1");
                                        ("entities", JArr [])])])].

(** Conditions with an operator whose operand is an array that starts
    with a placeholder. *)
Definition sharedTemplate : json :=
  JObj [("entityId",
          JObj [("$in", JArr [JStr "${user.entity.id}"; JStr "shared"])]);
        ("active", JBool true)].

(** A store with two roles.  The permission of [auditorRole] (at address
    0) is narrowed by a conditions template; the permission of
    [guestRole] (at address 1) names the scope ["toString"].  The users
    at addresses 0 and 1, of HTA1 and of SE1, hold the same
    [auditorRole]; the user at address 2 holds [guestRole]. *)
Definition auditorRole : Role := mkRole "auditor" [0%nat].
Definition guestRole : Role := mkRole "guest" [1%nat].

Definition sampleStore : Store :=
  mkStore
    (fun l =>
       match l with
       | 0%nat => mkUser "uid20" HTA1 [auditorRole] None
       | 1%nat => mkUser "uid21" SE1 [auditorRole] None
       | _ => mkUser "uid22" HTA1 [guestRole] None
       end)
    (fun l =>
       match l with
       | 0%nat =>
           mkPermission (Action "read") "Patient" None
             (Some (JObj [("entityId", JStr "${user.entity.id}")]))
       | _ =>
           mkPermission (Action "read") "Patient"
             (Some (ScopeName "toString")) None
       end).

(** The store after the auditor of HTA1 went through
    [decorateUserImmutable]. *)
Definition afterFirst : Store :=
  snd (decorateUserImmutable dotted_get 0%nat sampleStore).

(** The same users, with every declaration naming two scopes, the second
    of which does not exist. *)
Definition misnamedStore : Store :=
  mkStore (users sampleStore)
    (fun _ => mkPermission (Action "update") "Patient"
                (Some (ScopeNames ["IS_CAREGIVER"; "IS_NURSE"])) None).

(** ** Notions used in further properties *)

(** Neither [null] nor a string starting with ['$'] occurs in the value. *)
Fixpoint dollar_free (t : json) : bool :=
  match t with
  | JNull => false
  | JStr s => negb (starts_with_dollar s)
  | JArr items => forallb dollar_free items
  | JObj fields => forallb (fun kv => dollar_free (snd kv)) fields
  | _ => true
  end.

(** [p.conditions] is truthy. *)
Definition has_conditions (d : PermissionDeclaration) : bool :=
  match p_conditions d with
  | Some c => json_truthy c
  | None => false
  end.

(** The value [decorate] binds [scope] to: one closure for a single name,
    an array of closures otherwise, each over this user. *)
Definition bound_scope (user : loc) (fcnNames : list string) : BoundScope :=
  match fcnNames with
  | [fcnName] => OneScope (mkClosure user fcnName)
  | _ => ManyScopes (map (mkClosure user) fcnNames)
  end.

(** The rule for the declaration [d] at address [p]. *)
Definition rule_of (user p : loc) (d : PermissionDeclaration) : Rule :=
  match scope_names d with
  | None => Declared p
  | Some fcnNames =>
      Scoped (p_actions d) (p_subject d) (bound_scope user fcnNames)
        (p_conditions d)
  end.

(** [r] is the rule for the declaration at [p], with some conditions. *)
Definition rule_for (st : Store) (user p : loc) (r : Rule) : Prop :=
  exists c,
    r = rule_of user p
          (mkPermission (p_actions (declarations st p))
             (p_subject (declarations st p)) (p_scope (declarations st p)) c).

(** The permission declarations of a user, in role order and then in
    declaration order. *)
Definition permissions_of (st : Store) (user : loc) : list loc :=
  flat_map permissions (u_roles (users st user)).

(** The second half of the callback of [decorate]: the validation of
    the scope names and the rule returned, in a store where the
    conditions are already resolved. *)
Definition check_scope (user p : loc) : M Rule := fun st =>
  match scope_names (declarations st p) with
  | None => (Ok (Declared p), st)
  | Some fcnNames =>
      match find (fun fcnName => negb (scope_found fcnName)) fcnNames with
      | Some fcnName => (Throw (NoScopeDefined fcnName), st)
      | None => (Ok (rule_of user p (declarations st p)), st)
      end
  end.

(** The roles of [t/test-changes.js] in a store: the three permissions
    of the nurse at addresses 0 to 2, the one of the super-admin at 3;
    the nurse of HTA1 at address 0, the super-admin at 1. *)
Definition nurseRole : Role := mkRole "nurse" [0%nat; 1%nat; 2%nat].
Definition superAdminRole : Role := mkRole "superAdmin" [3%nat].

Definition testStore : Store :=
  mkStore
    (fun l =>
       match l with
       | 0%nat => mkUser "uid3" HTA1 [nurseRole] None
       | _ => mkUser "uid8" SmartMonitor [superAdminRole] None
       end)
    (fun l =>
       match l with
       | 0%nat =>
           mkPermission (Action "read") "Patient"
             (Some (ScopeName "BELONGS_TO_SUB_ENTITIES")) None
       | 1%nat =>
           mkPermission (Action "create") "Patient"
             (Some (ScopeNames ["IS_PRIMARY_CAREGIVER"; "BELONGS_TO_SUB_ENTITIES"]))
             None
       | 2%nat =>
           mkPermission (Action "update") "Patient"
             (Some (ScopeName "IS_CAREGIVER")) None
       | _ => mkPermission (Action "manage") "all" None None
       end).

(** The sample store with [null] in the conditions of the auditor. *)
Definition nullStore : Store :=
  set_conditions 0%nat
    (JObj [("entityId", JStr "${user.entity.id}"); ("deletedAt", JNull)])
    sampleStore.

(** The conditions of a declaration are left alone by resolution: there
    are none, or they are falsy, or they hold neither [null] nor a string
    starting with ['$']. *)
Definition settled (d : PermissionDeclaration) : bool :=
  match p_conditions d with
  | Some c => negb (json_truthy c) || dollar_free c
  | None => true
  end.

(** The sample store with every declaration carrying a conditions
    template and a scope that does not exist. *)
Definition brokenStore : Store :=
  mkStore (users sampleStore)
    (fun _ => mkPermission (Action "read") "Patient"
                (Some (ScopeName "IS_NURSE"))
                (Some (JObj [("entityId", JStr "${user.entity.id}")]))).

(** ** Induction principles *)

(** The children of an entity, and the members of an array or object,
    are smaller: induction with the property assumed of all of them. *)
Section EntityInduction.
Variable P : Entity -> Prop.
Hypothesis step : forall id name entities,
  Forall P entities -> P (mkEntity id name entities).

Fixpoint Entity_tree_ind (e : Entity) : P e :=
  match e with
  | mkEntity id name entities =>
      step id name entities
        ((fix children (l : list Entity) : Forall P l :=
            match l with
            | [] => Forall_nil P
            | c :: rest => Forall_cons c (Entity_tree_ind c) (children rest)
            end) entities)
  end.
End EntityInduction.

Section JsonInduction.
Variable P : json -> Prop.
Hypothesis Hnull : P JNull.
Hypothesis Hbool : forall b, P (JBool b).
Hypothesis Hnum : forall n, P (JNum n).
Hypothesis Hstr : forall s, P (JStr s).
Hypothesis Harr : forall items, Forall P items -> P (JArr items).
Hypothesis Hobj : forall fields,
  Forall (fun kv => P (snd kv)) fields -> P (JObj fields).

Fixpoint json_tree_ind (v : json) : P v :=
  match v with
  | JNull => Hnull
  | JBool b => Hbool b
  | JNum n => Hnum n
  | JStr s => Hstr s
  | JArr items =>
      Harr items
        ((fix each (l : list json) : Forall P l :=
            match l with
            | [] => Forall_nil P
            | x :: rest => Forall_cons x (json_tree_ind x) (each rest)
            end) items)
  | JObj fields =>
      Hobj fields
        ((fix each (l : list (string * json))
            : Forall (fun kv => P (snd kv)) l :=
            match l with
            | [] => Forall_nil _
            | kv :: rest =>
                Forall_cons kv (json_tree_ind (snd kv)) (each rest)
            end) fields)
  end.
End JsonInduction.

(** * Properties *)


(** ** The tree walker *)

Lemma fold_getIds (levels level : Z) (entities : list Entity) :
  Forall (fun c => forall ids, _getIds c ids levels level
                               = ids ++ _getIds c [] levels level) entities ->
  forall ids,
    fold_left (fun ids e => _getIds e ids levels level) entities ids
    = ids ++ flat_map (fun e => _getIds e [] levels level) entities.
Proof.
  induction 1 as [|c rest Hc _ IH]; intros ids; simpl.
  - now rewrite app_nil_r.
  - rewrite IH, Hc, app_assoc. reflexivity.
Qed.

Lemma getIds_acc (e : Entity) :
  forall ids levels level,
    _getIds e ids levels level = ids ++ _getIds e [] levels level.
Proof.
  induction e as [id name entities IH] using Entity_tree_ind.
  intros ids levels level. simpl.
  destruct entities as [|c rest]; [reflexivity|].
  destruct (level =? levels); [reflexivity|].
  assert (Hall : Forall (fun c => forall ids, _getIds c ids levels (level + 1)
                          = ids ++ _getIds c [] levels (level + 1)) (c :: rest)).
  { eapply Forall_impl; [|exact IH]. intros a Ha ids'. apply Ha. }
  rewrite (fold_getIds _ _ _ Hall (ids ++ [id])).
  rewrite (fold_getIds _ _ _ Hall [id]).
  now rewrite app_assoc.
Qed.

(** The walk, without its accumulator. *)
Lemma getIds_eq (e : Entity) (levels level : Z) :
  _getIds e [] levels level
  = e_id e :: (if level =? levels then []
               else flat_map (fun c => _getIds c [] levels (level + 1))
                      (e_entities e)).
Proof.
  destruct e as [id name entities]. simpl.
  destruct entities as [|c rest].
  - now destruct (level =? levels).
  - destruct (level =? levels); [reflexivity|].
    apply (fold_getIds levels (level + 1) (c :: rest)).
    apply Forall_forall. intros a _ ids. apply getIds_acc.
Qed.

Lemma flat_map_ext_Forall {A B : Type} (f g : A -> list B) (l : list A) :
  Forall (fun a => f a = g a) l -> flat_map f l = flat_map g l.
Proof.
  induction 1 as [|a l Ha _ IH]; simpl; [reflexivity|]. now rewrite Ha, IH.
Qed.

Lemma getIds_within (n : nat) :
  forall e level, _getIds e [] (level + Z.of_nat n) level = subtreeIdsWithin n e.
Proof.
  induction n as [|k IH]; intros e level; rewrite getIds_eq.
  - replace (level + Z.of_nat 0) with level by lia.
    now rewrite Z.eqb_refl.
  - replace (level + Z.of_nat (S k)) with (level + 1 + Z.of_nat k) by lia.
    replace (level =? level + 1 + Z.of_nat k) with false
      by (symmetry; apply Z.eqb_neq; lia).
    cbn [subtreeIdsWithin]. f_equal. apply flat_map_ext. intros c. apply IH.
Qed.

Lemma getIds_from_root (levels : Z) (e : Entity) :
  0 <= levels -> _getIds e [] levels 0 = subtreeIdsWithin (Z.to_nat levels) e.
Proof.
  intros H. rewrite <- (getIds_within (Z.to_nat levels) e 0).
  f_equal. lia.
Qed.

Lemma subtreeIds_eq (e : Entity) :
  subtreeIds e = e_id e :: flat_map subtreeIds (e_entities e).
Proof. now destruct e. Qed.

Lemma subseq_nil_l (l : list string) : subseq [] l.
Proof. induction l; constructor; assumption. Qed.

Lemma subseq_refl (l : list string) : subseq l l.
Proof. induction l; constructor; assumption. Qed.

Lemma subseq_app (a b c d : list string) :
  subseq a b -> subseq c d -> subseq (a ++ c) (b ++ d).
Proof.
  induction 1; intros Hcd; simpl;
    [assumption | apply subseq_skip; auto | apply subseq_keep; auto].
Qed.

Lemma subseq_In (a b : list string) (x : string) :
  subseq a b -> In x a -> In x b.
Proof.
  induction 1; simpl; intros Hin; auto.
  destruct Hin; auto.
Qed.

Lemma subseq_NoDup (a b : list string) :
  subseq a b -> NoDup b -> NoDup a.
Proof.
  induction 1 as [|x a b Hs IH|x a b Hs IH]; intros Hb.
  - constructor.
  - inversion Hb; auto.
  - inversion Hb as [|? ? Hnotin Hnodup]; subst. constructor; auto.
    intros Hin. apply Hnotin. eapply subseq_In; eauto.
Qed.

Lemma subseq_flat_map (f g : Entity -> list string) (l : list Entity) :
  Forall (fun c => subseq (f c) (g c)) l ->
  subseq (flat_map f l) (flat_map g l).
Proof.
  induction 1; simpl; [constructor | now apply subseq_app].
Qed.

(** Whatever the limit and the starting level, the walk visits a part
    of the subtree, in the subtree's order. *)
Lemma getIds_subseq (e : Entity) :
  forall levels level, subseq (_getIds e [] levels level) (subtreeIds e).
Proof.
  induction e as [id name entities IH] using Entity_tree_ind.
  intros levels level. rewrite getIds_eq, subtreeIds_eq. cbn [e_id e_entities].
  apply subseq_keep. destruct (level =? levels).
  - apply subseq_nil_l.
  - apply subseq_flat_map. eapply Forall_impl; [|exact IH].
    intros c Hc. apply Hc.
Qed.

Lemma flat_map_singleton {A B : Type} (f : A -> B) (l : list A) :
  flat_map (fun a => [f a]) l = map f l.
Proof. induction l; simpl; congruence. Qed.

(** C8 (amended).  For every entity tree and every [maxDepth] the ids
    collected by [_getIds] contain the root's id, and contain no
    duplicates whenever the ids of the tree's entities are pairwise
    distinct; for an entity without children they are exactly the root's
    id; and with [maxDepth = 1] they are exactly the root's id followed by
    the ids of its immediate children. *)
Theorem getIds_contents (e : Entity) (maxDepth : Z) :
  In (e_id e) (_getIds e [] maxDepth 0)
  /\ (NoDup (subtreeIds e) -> NoDup (_getIds e [] maxDepth 0))
  /\ (e_entities e = [] -> _getIds e [] maxDepth 0 = [e_id e])
  /\ _getIds e [] 1 0 = e_id e :: map e_id (e_entities e).
Proof.
  repeat split.
  - rewrite getIds_eq. now left.
  - apply subseq_NoDup, getIds_subseq.
  - intros Hleaf. rewrite getIds_eq, Hleaf. now destruct (0 =? maxDepth).
  - rewrite (getIds_from_root 1 e) by lia.
    change (Z.to_nat 1) with 1%nat. cbn [subtreeIdsWithin].
    now rewrite flat_map_singleton.
Qed.

Lemma getIds_contents_witness :
  NoDup (_getIds SmartMonitor [] 1 0)
  /\ _getIds HTA1 [] 7 0 = ["hta1"].
Proof.
  split.
  - apply (proj1 (proj2 (getIds_contents SmartMonitor 1))).
    repeat (constructor; [simpl; intuition discriminate|]). constructor.
  - apply (proj1 (proj2 (proj2 (getIds_contents HTA1 7)))). reflexivity.
Defined.

(** C8, as stated, fails: the walk pushes every id it meets, so an id
    carried by two entities of the tree is collected twice. *)
Lemma getIds_duplicates :
  _getIds twinEntity [] 1 0 = ["a"; "a"] /\ ~ NoDup (_getIds twinEntity [] 1 0).
Proof.
  split; [reflexivity|].
  intros H. inversion H as [|? ? Hnotin _]; subst. apply Hnotin. now left.
Qed.

(** ** The caregiver predicates *)

(** C9.  Whenever [IS_PRIMARY_CAREGIVER] returns true, so does
    [IS_CAREGIVER]. *)
Theorem IS_CAREGIVER_widens_primary (user : User) (patient : Subject)
  (rule : RuleContext) :
  IS_PRIMARY_CAREGIVER user patient rule = Ok true ->
  IS_CAREGIVER user patient rule = Ok true.
Proof.
  unfold IS_CAREGIVER. intros ->. reflexivity.
Qed.

Lemma IS_CAREGIVER_widens_primary_witness :
  IS_CAREGIVER (mkUser "uid3" HTA1 [] None) patientHTA1 (mkRule "Patient")
  = Ok true.
Proof.
  apply (IS_CAREGIVER_widens_primary (mkUser "uid3" HTA1 [] None) patientHTA1
           (mkRule "Patient")).
  reflexivity.
Defined.

(** C10.  [IS_PRIMARY_CAREGIVER] and [IS_CAREGIVER] never throw, whatever
    the rule's subject type, and their boolean is determined by
    [user.id], [subject.caregiverId] and [subject.caregiverIds] alone: two
    calls that agree on these three return the same boolean. *)
Theorem caregiver_predicates_total (user user' : User) (subj subj' : Subject)
  (rule rule' : RuleContext) :
  u_id user = u_id user' ->
  s_caregiverId subj = s_caregiverId subj' ->
  s_caregiverIds subj = s_caregiverIds subj' ->
  (exists b, IS_PRIMARY_CAREGIVER user subj rule = Ok b
             /\ IS_PRIMARY_CAREGIVER user' subj' rule' = Ok b)
  /\ (exists b, IS_CAREGIVER user subj rule = Ok b
                /\ IS_CAREGIVER user' subj' rule' = Ok b).
Proof.
  intros Hid Hcg Hcgs. unfold IS_CAREGIVER, IS_PRIMARY_CAREGIVER. simpl.
  rewrite <- Hid, <- Hcg, <- Hcgs. split.
  - eexists; split; reflexivity.
  - destruct (strict_eq (u_id user) (s_caregiverId subj)).
    + eexists; split; reflexivity.
    + destruct (s_caregiverIds subj); eexists; split; reflexivity.
Qed.

Lemma caregiver_predicates_total_witness :
  (exists b,
      IS_PRIMARY_CAREGIVER (mkUser "uid3" HTA1 [] None) patientHTA1
        (mkRule "Patient") = Ok b
      /\ IS_PRIMARY_CAREGIVER (mkUser "uid3" SE1 [] None) patientHTA1
           (mkRule "Spaceship") = Ok b)
  /\ (exists b,
         IS_CAREGIVER (mkUser "uid3" HTA1 [] None) patientHTA1
           (mkRule "Patient") = Ok b
         /\ IS_CAREGIVER (mkUser "uid3" SE1 [] None) patientHTA1
              (mkRule "Spaceship") = Ok b).
Proof.
  apply (caregiver_predicates_total (mkUser "uid3" HTA1 [] None)
           (mkUser "uid3" SE1 [] None) patientHTA1 patientHTA1
           (mkRule "Patient") (mkRule "Spaceship")); reflexivity.
Defined.

(** ** Membership tests *)

Lemma mem_In (x : string) (l : list string) : mem x l = true <-> In x l.
Proof.
  unfold mem. rewrite existsb_exists. split.
  - intros [y [Hin Heq]]. apply String.eqb_eq in Heq. now subst.
  - intros Hin. exists x. split; [assumption | apply String.eqb_refl].
Qed.

Lemma index_from_none (l : list string) (value : option string) :
  forall i, 0 <= i ->
    (index_from l value i =? -1) = negb (existsb (fun x => strict_eq x value) l).
Proof.
  induction l as [|x rest IH]; intros i Hi; simpl; [reflexivity|].
  destruct (strict_eq x value); simpl.
  - apply Z.eqb_neq. lia.
  - apply IH. lia.
Qed.

Lemma strict_eq_mem (l : list string) (v : string) :
  existsb (fun x => strict_eq x (Some v)) l = mem v l.
Proof.
  unfold mem, strict_eq. induction l as [|x rest IH]; simpl; [reflexivity|].
  now rewrite IH, String.eqb_sym.
Qed.

(** [_indexOf(array, value) === -1 ? false : true]. *)
Lemma indexOf_found (l : list string) (x : option string) :
  (if _indexOf (Some l) x =? -1 then false else true)
  = existsb (fun i => mem i l) (opt_to_list x).
Proof.
  unfold _indexOf. rewrite index_from_none by lia.
  destruct x as [v|]; cbn [opt_to_list existsb].
  - rewrite strict_eq_mem, orb_false_r. now destruct (mem v l).
  - replace (existsb (fun x => strict_eq x None) l) with false; [reflexivity|].
    induction l; simpl; auto.
Qed.

Lemma indexOf_opt_found (o : option (list string)) (v : string) :
  (if _indexOf o (Some v) =? -1 then false else true) = mem v (olist o).
Proof.
  destruct o as [l|]; [|reflexivity].
  rewrite indexOf_found. simpl. apply orb_false_r.
Qed.

Lemma existsb_mem_sym (a b : list string) :
  existsb (fun x => mem x b) a = existsb (fun i => mem i a) b.
Proof.
  apply eq_true_iff_eq. rewrite !existsb_exists.
  split; intros [x [Hin Hm]]; apply mem_In in Hm; exists x;
    (split; [assumption | now apply mem_In]).
Qed.

Lemma nodup_length_zero (l : list string) :
  (Z.of_nat (length (nodup string_dec l)) =? 0)
  = match l with [] => true | _ :: _ => false end.
Proof.
  destruct l as [|x rest]; [reflexivity|].
  apply Z.eqb_neq.
  assert (Hin : In x (nodup string_dec (x :: rest)))
    by (apply nodup_In; now left).
  destruct (nodup string_dec (x :: rest)); [contradiction | simpl; lia].
Qed.

(** [_intersection(a, b).length ? true : false]. *)
Lemma intersection_nonempty (a : list string) (o : option (list string)) :
  (if Z.of_nat (length (_intersection a o)) =? 0 then false else true)
  = existsb (fun i => mem i a) (olist o).
Proof.
  destruct o as [l|]; [|reflexivity]. simpl.
  rewrite nodup_length_zero, <- existsb_mem_sym.
  induction a as [|x rest IH]; simpl; [reflexivity|].
  destruct (mem x l); simpl; [reflexivity | exact IH].
Qed.

(** The short-circuit on direct membership followed by the test against
    the collected ids is one test against the collected ids, as soon as
    these contain the id of the user's own entity. *)
Lemma direct_then_walk (user : User) (subj : Subject) (rule : RuleContext)
  (tree : list string) :
  In (e_id (u_entity user)) tree ->
  (direct <- BELONGS_TO_ENTITY user subj rule ;;
   if direct then Ok true else _entityMembership tree subj rule)
  = (ids <- resolvedEntityIds subj rule ;;
     Ok (existsb (fun i => mem i tree) ids)).
Proof.
  intros Hroot. apply mem_In in Hroot.
  unfold BELONGS_TO_ENTITY, _entityMembership, resolvedEntityIds.
  destruct (subject rule =? "User")%string;
    [|destruct (subject rule =? "Entity")%string;
      [|destruct (subject rule =? "Patient")%string; [|reflexivity]]].
  - destruct (or_else (s_entityId subj) (entity_id_of subj)) as [x|e];
      [|reflexivity].
    cbn [bind]. rewrite indexOf_found.
    destruct x as [i|]; cbn [strict_eq opt_to_list existsb]; [|reflexivity].
    destruct (String.eqb_spec (e_id (u_entity user)) i) as [<-|_];
      [now rewrite Hroot | reflexivity].
  - destruct (or_else (s_entityId subj) (Ok (s_id subj))) as [x|e];
      [|reflexivity].
    cbn [bind]. rewrite indexOf_found.
    destruct x as [i|]; cbn [strict_eq opt_to_list existsb]; [|reflexivity].
    destruct (String.eqb_spec (e_id (u_entity user)) i) as [<-|_];
      [now rewrite Hroot | reflexivity].
  - cbn [bind]. rewrite indexOf_opt_found, intersection_nonempty.
    set (o := if truthy (s_entityId subj)
              then match s_entityId subj with Some i => Some [i] | None => None end
              else s_entityIds subj).
    replace (if truthy (s_entityId subj) then opt_to_list (s_entityId subj)
             else olist (s_entityIds subj))
      with (olist o)
      by (subst o; destruct (truthy (s_entityId subj)); [|reflexivity];
          now destruct (s_entityId subj)).
    destruct (mem (e_id (u_entity user)) (olist o)) eqn:Hdirect; [|reflexivity].
    f_equal. symmetry. apply existsb_exists.
    exists (e_id (u_entity user)). split; [now apply mem_In | assumption].
Qed.

Lemma getIds_root (e : Entity) (levels level : Z) :
  In (e_id e) (_getIds e [] levels level).
Proof. rewrite getIds_eq. now left. Qed.

Lemma BELONGS_TO_SUB_ENTITIES_eq (user : User) (subj : Subject)
  (rule : RuleContext) :
  BELONGS_TO_SUB_ENTITIES user subj rule
  = (ids <- resolvedEntityIds subj rule ;;
     Ok (existsb (fun i => mem i (subtreeIdsWithin 1 (u_entity user))) ids)).
Proof.
  unfold BELONGS_TO_SUB_ENTITIES.
  rewrite direct_then_walk by apply getIds_root.
  now rewrite (getIds_from_root 1) by lia.
Qed.

Lemma BELONGS_TO_ENTITY_TREE_eq (user : User) (subj : Subject)
  (rule : RuleContext) :
  BELONGS_TO_ENTITY_TREE user subj rule
  = (ids <- resolvedEntityIds subj rule ;;
     Ok (existsb (fun i => mem i (subtreeIdsWithin (Z.to_nat 10000)
                                   (u_entity user))) ids)).
Proof.
  unfold BELONGS_TO_ENTITY_TREE.
  rewrite direct_then_walk by apply getIds_root.
  now rewrite (getIds_from_root 10000) by lia.
Qed.

Lemma incl_flat_map (f g : Entity -> list string) (l : list Entity) :
  (forall c, incl (f c) (g c)) -> incl (flat_map f l) (flat_map g l).
Proof.
  intros H x Hin. apply in_flat_map in Hin as [c [Hc Hx]].
  apply in_flat_map. exists c. split; [assumption | now apply H].
Qed.

(** A larger limit collects more. *)
Lemma subtreeIdsWithin_mono (n : nat) :
  forall m e, (n <= m)%nat -> incl (subtreeIdsWithin n e) (subtreeIdsWithin m e).
Proof.
  induction n as [|k IH]; intros m e Hle.
  - intros x [<-|[]]. destruct m; now left.
  - destruct m as [|m']; [lia|]. cbn [subtreeIdsWithin].
    apply incl_cons; [now left|]. apply incl_tl, incl_flat_map.
    intros c. apply IH. lia.
Qed.

Lemma existsb_mem_incl (a b ids : list string) :
  incl a b ->
  existsb (fun i => mem i a) ids = true ->
  existsb (fun i => mem i b) ids = true.
Proof.
  intros Hincl H. apply existsb_exists in H as [x [Hin Hm]].
  apply existsb_exists. exists x. split; [assumption|].
  apply mem_In, Hincl, mem_In, Hm.
Qed.

(** ** The entity-membership predicates *)

(** C7.  For a subject type name other than [User], [Entity] and
    [Patient], each of the three entity-membership predicates throws the
    unsupported-subject error; none returns a boolean. *)
Theorem unsupported_subject_throws (user : User) (subj : Subject)
  (rule : RuleContext) :
  subject rule <> "User"%string ->
  subject rule <> "Entity"%string ->
  subject rule <> "Patient"%string ->
  BELONGS_TO_ENTITY user subj rule = Throw (UnsupportedSubject (subject rule))
  /\ BELONGS_TO_SUB_ENTITIES user subj rule
     = Throw (UnsupportedSubject (subject rule))
  /\ BELONGS_TO_ENTITY_TREE user subj rule
     = Throw (UnsupportedSubject (subject rule)).
Proof.
  intros HU HE HP.
  apply String.eqb_neq in HU. apply String.eqb_neq in HE.
  apply String.eqb_neq in HP.
  assert (H : BELONGS_TO_ENTITY user subj rule
              = Throw (UnsupportedSubject (subject rule))).
  { unfold BELONGS_TO_ENTITY. now rewrite HU, HE, HP. }
  unfold BELONGS_TO_SUB_ENTITIES, BELONGS_TO_ENTITY_TREE.
  rewrite H. repeat split.
Qed.

Lemma unsupported_subject_throws_witness :
  BELONGS_TO_ENTITY nurseHTA1 patientHTA1 (mkRule "Device")
  = Throw (UnsupportedSubject "Device")
  /\ BELONGS_TO_SUB_ENTITIES nurseHTA1 patientHTA1 (mkRule "Device")
     = Throw (UnsupportedSubject "Device")
  /\ BELONGS_TO_ENTITY_TREE nurseHTA1 patientHTA1 (mkRule "Device")
     = Throw (UnsupportedSubject "Device").
Proof.
  apply (unsupported_subject_throws nurseHTA1 patientHTA1 (mkRule "Device"));
    discriminate.
Defined.

(** C5.  Whenever [BELONGS_TO_SUB_ENTITIES] returns true so does
    [BELONGS_TO_ENTITY_TREE], and whenever [BELONGS_TO_ENTITY] returns
    true so do both. *)
Theorem membership_widening (user : User) (subj : Subject) (rule : RuleContext) :
  (BELONGS_TO_SUB_ENTITIES user subj rule = Ok true ->
   BELONGS_TO_ENTITY_TREE user subj rule = Ok true)
  /\ (BELONGS_TO_ENTITY user subj rule = Ok true ->
      BELONGS_TO_SUB_ENTITIES user subj rule = Ok true
      /\ BELONGS_TO_ENTITY_TREE user subj rule = Ok true).
Proof.
  split.
  - rewrite BELONGS_TO_SUB_ENTITIES_eq, BELONGS_TO_ENTITY_TREE_eq.
    destruct (resolvedEntityIds subj rule) as [ids|e]; [|discriminate].
    cbn [bind]. intros H. f_equal.
    assert (H' : existsb (fun i => mem i (subtreeIdsWithin 1 (u_entity user))) ids
                 = true) by congruence.
    revert H'. apply existsb_mem_incl, subtreeIdsWithin_mono. lia.
  - intros H. unfold BELONGS_TO_SUB_ENTITIES, BELONGS_TO_ENTITY_TREE.
    rewrite H. split; reflexivity.
Qed.

Lemma membership_widening_witness :
  BELONGS_TO_ENTITY_TREE managerForCVS patientHTA1 (mkRule "Patient") = Ok true
  /\ BELONGS_TO_SUB_ENTITIES nurseHTA1 patientHTA1 (mkRule "Patient") = Ok true.
Proof.
  split.
  - apply (proj1 (membership_widening managerForCVS patientHTA1
                    (mkRule "Patient"))).
    reflexivity.
  - apply (proj2 (membership_widening nurseHTA1 patientHTA1
                    (mkRule "Patient"))).
    reflexivity.
Defined.

Lemma depth_children (k : nat) (entities : list Entity) :
  (fold_right (fun c d => Nat.max (S (depth c)) d) O entities <= S k)%nat ->
  Forall (fun c => (depth c <= k)%nat) entities.
Proof.
  induction entities as [|c rest IH]; cbn [fold_right]; intros H; constructor.
  - lia.
  - apply IH. lia.
Qed.

(** Saturation: a limit at least the depth of the tree collects all of it. *)
Lemma subtreeIdsWithin_saturates (n : nat) :
  forall e, (depth e <= n)%nat -> subtreeIdsWithin n e = subtreeIds e.
Proof.
  induction n as [|k IH]; intros [id name entities] H; cbn [depth] in H.
  - destruct entities; [reflexivity | cbn [fold_right] in H; lia].
  - cbn [subtreeIdsWithin subtreeIds e_id e_entities]. f_equal.
    apply flat_map_ext_Forall.
    eapply Forall_impl; [|apply depth_children, H].
    intros c Hc. now apply IH.
Qed.

(** X3.  Saturation: with a limit at least the depth of the tree, the
    walk from the root collects the ids of the whole subtree, in
    preorder. *)
Lemma getIds_saturates (e : Entity) (levels : Z) :
  0 <= levels ->
  (depth e <= Z.to_nat levels)%nat ->
  _getIds e [] levels 0 = subtreeIds e.
Proof.
  intros Hpos Hdepth. rewrite getIds_from_root by assumption.
  now apply subtreeIdsWithin_saturates.
Qed.

Lemma getIds_saturates_witness :
  _getIds SmartMonitor [] 2 0
  = ["sm"; "cvs"; "hta1"; "hta2"; "cvsp"; "se1"; "se2"]%string.
Proof.
  rewrite (getIds_saturates SmartMonitor 2); [reflexivity | lia |].
  apply Nat.leb_le. reflexivity.
Defined.

Lemma existsb_mem_exists (tree ids : list string) :
  existsb (fun i => mem i tree) ids = true
  <-> exists i, In i ids /\ In i tree.
Proof.
  rewrite existsb_exists.
  split; intros [i [Hin Hm]]; exists i; (split; [assumption|]);
    now apply mem_In.
Qed.

(** C1 (amended).  For every user and every subject whose entity id (for
    a patient: list of entity ids) resolves, [BELONGS_TO_ENTITY_TREE]
    returns a boolean, true exactly when a resolved id belongs to the
    ids of the entities at most 10000 levels below [user.entity]; this is
    the full descendant subtree whenever the tree is at most 10000 levels
    deep. *)
Theorem BELONGS_TO_ENTITY_TREE_within_10000 (user : User) (subj : Subject)
  (rule : RuleContext) (ids : list string) :
  resolvedEntityIds subj rule = Ok ids ->
  exists b,
    BELONGS_TO_ENTITY_TREE user subj rule = Ok b
    /\ (b = true <->
        exists i, In i ids
                  /\ In i (subtreeIdsWithin (Z.to_nat 10000) (u_entity user)))
    /\ ((depth (u_entity user) <= Z.to_nat 10000)%nat ->
        (b = true <-> exists i, In i ids /\ In i (subtreeIds (u_entity user)))).
Proof.
  intros Hids. rewrite BELONGS_TO_ENTITY_TREE_eq, Hids. cbn [bind].
  eexists. split; [reflexivity|]. split.
  - apply existsb_mem_exists.
  - intros Hdepth. rewrite <- (subtreeIdsWithin_saturates _ _ Hdepth).
    apply existsb_mem_exists.
Qed.

Lemma BELONGS_TO_ENTITY_TREE_within_10000_witness :
  exists b,
    BELONGS_TO_ENTITY_TREE managerForCVS patientHTA1 (mkRule "Patient") = Ok b
    /\ (b = true <->
        exists i, In i ["hta1"]
                  /\ In i (subtreeIdsWithin (Z.to_nat 10000) CVS))
    /\ ((depth CVS <= Z.to_nat 10000)%nat ->
        (b = true <-> exists i, In i ["hta1"] /\ In i (subtreeIds CVS))).
Proof.
  apply (BELONGS_TO_ENTITY_TREE_within_10000 managerForCVS patientHTA1
           (mkRule "Patient") ["hta1"]).
  reflexivity.
Defined.

Lemma chain_leaf (n : nat) (leaf : Entity) :
  In (e_id leaf) (subtreeIds (chain n leaf)).
Proof.
  induction n as [|k IH]; simpl.
  - rewrite subtreeIds_eq. now left.
  - right. rewrite app_nil_r. exact IH.
Qed.

(** What lies deeper in a chain than the limit is not collected. *)
Lemma chain_within (n : nat) :
  forall m leaf x,
    (n < m)%nat -> x <> "n"%string ->
    ~ In x (subtreeIdsWithin n (chain m leaf)).
Proof.
  induction n as [|k IH]; intros [|m] leaf x Hlt Hx; try lia.
  - intros [H|[]]. now apply Hx.
  - cbn [chain subtreeIdsWithin e_id e_entities flat_map].
    rewrite app_nil_r. intros [H|H]; [now apply Hx|].
    revert H. apply IH; [lia | assumption].
Qed.

Lemma deep_leaf_not_collected :
  mem "leaf" (subtreeIdsWithin (Z.to_nat 10000) deepEntity) = false.
Proof.
  apply not_true_is_false. intros H. apply mem_In in H.
  assert (Hlt : (Z.to_nat 10000 < Z.to_nat 10001)%nat) by lia.
  assert (Hx : "leaf"%string <> "n"%string) by discriminate.
  exact (chain_within (Z.to_nat 10000) (Z.to_nat 10001) leafEntity "leaf"
           Hlt Hx H).
Qed.

(** C1, as stated, fails: the walk stops 10000 levels below the user's
    entity, so an entity of the subtree one level further down is not
    found. *)
Lemma BELONGS_TO_ENTITY_TREE_stops_at_10000 :
  resolvedEntityIds leafSubject (mkRule "Entity") = Ok ["leaf"]
  /\ In "leaf" (subtreeIds (u_entity deepUser))
  /\ BELONGS_TO_ENTITY_TREE deepUser leafSubject (mkRule "Entity") = Ok false.
Proof.
  split; [reflexivity|]. split.
  - apply (chain_leaf (Z.to_nat 10001) leafEntity).
  - rewrite BELONGS_TO_ENTITY_TREE_eq.
    change (u_entity deepUser) with deepEntity.
    change (resolvedEntityIds leafSubject (mkRule "Entity"))
      with (Ok ["leaf"%string]).
    cbn [bind existsb]. now rewrite deep_leaf_not_collected.
Qed.

(** ** Absent relational fields *)

(** C4 (amended).  An absent relational field is not an error for the
    caregiver predicates nor for subjects of type [Patient] and [Entity]:
    without [caregiverId], [IS_PRIMARY_CAREGIVER] is false; without
    [caregiverIds], [IS_CAREGIVER] is [IS_PRIMARY_CAREGIVER]; a patient
    without [entityId] and [entityIds], and an entity without [entityId]
    and [id], belong to nothing.  For a subject of type [User] an absent
    [entityId] is not an error as long as [entity] is there: the three
    predicates then test [entity.id]. *)
Theorem absent_relation_fields (user : User) (subj : Subject)
  (rule : RuleContext) :
  (s_caregiverId subj = None ->
   IS_PRIMARY_CAREGIVER user subj rule = Ok false)
  /\ (s_caregiverIds subj = None ->
      IS_CAREGIVER user subj rule = IS_PRIMARY_CAREGIVER user subj rule)
  /\ (subject rule = "Patient"%string ->
      s_entityId subj = None -> s_entityIds subj = None ->
      BELONGS_TO_ENTITY user subj rule = Ok false
      /\ BELONGS_TO_SUB_ENTITIES user subj rule = Ok false
      /\ BELONGS_TO_ENTITY_TREE user subj rule = Ok false)
  /\ (subject rule = "Entity"%string ->
      s_entityId subj = None -> s_id subj = None ->
      BELONGS_TO_ENTITY user subj rule = Ok false
      /\ BELONGS_TO_SUB_ENTITIES user subj rule = Ok false
      /\ BELONGS_TO_ENTITY_TREE user subj rule = Ok false)
  /\ (subject rule = "User"%string ->
      s_entityId subj = None ->
      forall e, s_entity subj = Some e ->
      BELONGS_TO_ENTITY user subj rule
      = Ok (e_id (u_entity user) =? e_id e)%string
      /\ BELONGS_TO_SUB_ENTITIES user subj rule
         = Ok (mem (e_id e) (subtreeIdsWithin 1 (u_entity user)))
      /\ BELONGS_TO_ENTITY_TREE user subj rule
         = Ok (mem (e_id e)
                 (subtreeIdsWithin (Z.to_nat 10000) (u_entity user)))).
Proof.
  repeat apply conj.
  - intros H. unfold IS_PRIMARY_CAREGIVER. now rewrite H.
  - intros H. unfold IS_CAREGIVER, IS_PRIMARY_CAREGIVER. cbn [bind].
    rewrite H. now destruct (strict_eq (u_id user) (s_caregiverId subj)).
  - intros Hs He Hes.
    assert (Hr : resolvedEntityIds subj rule = Ok []).
    { unfold resolvedEntityIds. now rewrite Hs, He, Hes. }
    rewrite BELONGS_TO_SUB_ENTITIES_eq, BELONGS_TO_ENTITY_TREE_eq, Hr.
    unfold BELONGS_TO_ENTITY. rewrite Hs, He, Hes. repeat split.
  - intros Hs He Hid.
    assert (Hr : resolvedEntityIds subj rule = Ok []).
    { unfold resolvedEntityIds. now rewrite Hs, He, Hid. }
    rewrite BELONGS_TO_SUB_ENTITIES_eq, BELONGS_TO_ENTITY_TREE_eq, Hr.
    unfold BELONGS_TO_ENTITY. rewrite Hs, He, Hid. repeat split.
  - intros Hs He e Hent.
    assert (Hr : resolvedEntityIds subj rule = Ok [e_id e]).
    { unfold resolvedEntityIds, entity_id_of. now rewrite Hs, He, Hent. }
    rewrite BELONGS_TO_SUB_ENTITIES_eq, BELONGS_TO_ENTITY_TREE_eq, Hr.
    unfold BELONGS_TO_ENTITY, entity_id_of. rewrite Hs, He, Hent.
    cbn [bind existsb or_else truthy strict_eq]. rewrite !orb_false_r.
    repeat split.
Qed.

Lemma absent_relation_fields_witness :
  IS_CAREGIVER nurseHTA1 emptySubject (mkRule "Patient")
  = IS_PRIMARY_CAREGIVER nurseHTA1 emptySubject (mkRule "Patient")
  /\ BELONGS_TO_ENTITY_TREE nurseHTA1 emptySubject (mkRule "Patient") = Ok false.
Proof.
  split.
  - apply (proj1 (proj2 (absent_relation_fields nurseHTA1 emptySubject
                           (mkRule "Patient")))).
    reflexivity.
  - apply (proj1 (proj2 (proj2 (absent_relation_fields nurseHTA1 emptySubject
                                  (mkRule "Patient")))));
      reflexivity.
Defined.

(** C4, as stated, fails: for a subject of type [User] that carries
    neither [entityId] nor [entity], reading [subject.entity.id] is a
    [TypeError], in each of the three entity-membership predicates. *)
Lemma absent_entity_of_user_throws :
  BELONGS_TO_ENTITY nurseHTA1 emptySubject (mkRule "User") = Throw TypeError
  /\ BELONGS_TO_SUB_ENTITIES nurseHTA1 emptySubject (mkRule "User")
     = Throw TypeError
  /\ BELONGS_TO_ENTITY_TREE nurseHTA1 emptySubject (mkRule "User")
     = Throw TypeError.
Proof. repeat split. Qed.

(** ** Conditions templates *)


Lemma mapM_ext_exists {A B : Type} (f g : A -> result B)
  (bad1 bad2 : A -> bool) (l : list A) :
  Forall (fun x => bad1 x = false -> bad2 x = false -> f x = g x) l ->
  existsb bad1 l = false -> existsb bad2 l = false -> mapM f l = mapM g l.
Proof.
  induction 1 as [|x rest Hx _ IH]; cbn [existsb mapM]; intros H1 H2;
    [reflexivity|].
  apply orb_false_elim in H1 as [Hx1 Hr1].
  apply orb_false_elim in H2 as [Hx2 Hr2]. now rewrite Hx, IH.
Qed.

Lemma substring_append (p q : string) :
  substring 0 (String.length p) (p ++ q) = p.
Proof.
  induction p as [|c p IH]; simpl.
  - now destruct q.
  - now rewrite IH.
Qed.

Lemma length_append_one (p : string) (c : ascii) :
  String.length (p ++ String c EmptyString) = S (String.length p).
Proof. induction p as [|a p IH]; simpl; congruence. Qed.

(** The path a placeholder encloses. *)
Lemma placeholder_path (path : string) :
  substring 2 (String.length (placeholder path) - 3) (placeholder path) = path.
Proof.
  unfold placeholder. cbn [append String.length].
  rewrite length_append_one.
  replace (S (S (S (String.length path))) - 3)%nat with (String.length path)
    by lia.
  cbn [substring]. apply substring_append.
Qed.

Section Resolution.
Variable _get : json -> json -> option json.
Variable variables : json.

Lemma substitute_not_dollar (x x' : json) :
  resolves_to_dollar _get variables x = false ->
  substitute _get variables x = Ok x' ->
  not_dollar (Some x') = true.
Proof.
  destruct x as [|b|n|s|items|fields];
    cbn [substitute resolves_to_dollar]; intros Hd H.
  - now injection H as <-.
  - now injection H as <-.
  - now injection H as <-.
  - destruct (starts_with_dollar s) eqn:Hs.
    + cbn [andb] in Hd.
      destruct (_get variables _) as [v|]; [|discriminate H].
      injection H as <-. destruct v as [|b|n|v|items|fields]; try reflexivity.
      cbn [not_dollar]. now rewrite Hd.
    + injection H as <-. destruct s as [|c s]; [reflexivity|].
      cbn in Hs |- *. now rewrite Hs.
  - destruct (mapM (substitute _get variables) items); [|discriminate].
    now injection H as <-.
  - destruct (mapM _ fields); [|discriminate]. now injection H as <-.
Qed.

Lemma reviver_string (s : string) :
  reviver _get variables (JStr s) = substitute _get variables (JStr s).
Proof.
  unfold reviver. destruct s as [|c s]; [reflexivity|].
  cbn [index0 bind not_dollar substitute starts_with_dollar String.eqb].
  now destruct (Ascii.eqb c "$").
Qed.

Lemma reviver_keeps (v : json) (x : option json) :
  index0 v = Ok x -> not_dollar x = true -> reviver _get variables v = Ok v.
Proof. unfold reviver. intros -> Hx. cbn [bind]. now rewrite Hx. Qed.

Lemma mapM_head (items items' : list json) :
  mapM (substitute _get variables) items = Ok items' ->
  match items with
  | x :: _ => resolves_to_dollar _get variables x
  | [] => false
  end = false ->
  not_dollar (hd_error items') = true.
Proof.
  destruct items as [|x rest]; cbn [mapM]; intros H Hd.
  - now injection H as <-.
  - destruct (substitute _get variables x) as [x'|] eqn:Hx; [|discriminate].
    cbn [bind] in H. destruct (mapM _ rest); [|discriminate].
    injection H as <-. eapply substitute_not_dollar; eauto.
Qed.

Lemma mapM_assoc (key : string) (fields fields' : list (string * json)) :
  mapM (fun kv => x' <- substitute _get variables (snd kv) ;; Ok (fst kv, x'))
    fields = Ok fields' ->
  match assoc key fields with
  | Some x => resolves_to_dollar _get variables x
  | None => false
  end = false ->
  not_dollar (assoc key fields') = true.
Proof.
  revert fields'. induction fields as [|[k x] rest IH]; cbn [mapM];
    intros fields' H Hd.
  - now injection H as <-.
  - cbn [snd fst] in H.
    destruct (substitute _get variables x) as [x'|] eqn:Hx; [|discriminate].
    cbn [bind] in H.
    destruct (mapM _ rest) as [rest'|] eqn:Hrest; [|discriminate].
    injection H as <-. cbn [assoc] in Hd |- *.
    destruct (k =? key)%string.
    + eapply substitute_not_dollar; eauto.
    + now apply IH.
Qed.

(** Where [null] does not occur and no container is misread, the
    reviver's walk is the recursive descent. *)
Lemma revive_substitute (t : json) :
  contains_null t = false ->
  misread _get variables t = false ->
  revive _get variables t = substitute _get variables t.
Proof.
  induction t as [|b|n|s|items IH|fields IH] using json_tree_ind;
    intros Hnull Hmis.
  - discriminate.
  - reflexivity.
  - reflexivity.
  - apply reviver_string.
  - cbn [contains_null] in Hnull. cbn [misread] in Hmis.
    apply orb_false_elim in Hmis as [Hhead Hmis].
    cbn [revive substitute].
    rewrite (mapM_ext_exists _ _ contains_null (misread _get variables)
               items IH Hnull Hmis).
    destruct (mapM (substitute _get variables) items) as [items'|e] eqn:Hm;
      [|reflexivity].
    cbn [bind]. apply (reviver_keeps _ (hd_error items')); [reflexivity|].
    eapply mapM_head; eauto.
  - cbn [contains_null] in Hnull. cbn [misread] in Hmis.
    apply orb_false_elim in Hmis as [Hzero Hmis].
    cbn [revive substitute].
    rewrite (mapM_ext_exists
               (fun kv => x' <- revive _get variables (snd kv) ;; Ok (fst kv, x'))
               (fun kv => x' <- substitute _get variables (snd kv) ;; Ok (fst kv, x'))
               (fun kv => contains_null (snd kv))
               (fun kv => misread _get variables (snd kv)) fields).
    + destruct (mapM _ fields) as [fields'|e] eqn:Hm; [|reflexivity].
      cbn [bind]. apply (reviver_keeps _ (assoc "0" fields')); [reflexivity|].
      eapply mapM_assoc; eauto.
    + eapply Forall_impl; [|exact IH]. intros kv Hkv H1 H2. now rewrite Hkv.
    + exact Hnull.
    + exact Hmis.
Qed.

Lemma never_resolves_to_dollar (x : json) :
  (forall name, _get variables name <> Some (JStr "$")) ->
  resolves_to_dollar _get variables x = false.
Proof.
  intros Hnever. destruct x as [|b|n|s|items|fields]; try reflexivity.
  cbn [resolves_to_dollar]. destruct (starts_with_dollar s); [|reflexivity].
  cbn [andb].
  destruct (_get variables _) as [[|b|n|v|items|fields]|] eqn:Hg;
    try reflexivity.
  apply String.eqb_neq. intros ->. now apply (Hnever _ Hg).
Qed.

(** When no path of the variables holds the string ["$"], nothing is
    misread. *)
Lemma never_misread (t : json) :
  (forall name, _get variables name <> Some (JStr "$")) ->
  misread _get variables t = false.
Proof.
  intros Hnever.
  induction t as [|b|n|s|items IH|fields IH] using json_tree_ind;
    try reflexivity; cbn [misread]; apply orb_false_intro.
  - destruct items; [reflexivity | now apply never_resolves_to_dollar].
  - induction IH as [|x rest Hx _ IHrest]; [reflexivity|].
    cbn [existsb]. now rewrite Hx, IHrest.
  - destruct (assoc "0" fields); [now apply never_resolves_to_dollar | reflexivity].
  - induction IH as [|kv rest Hx _ IHrest]; [reflexivity|].
    cbn [existsb]. now rewrite Hx, IHrest.
Qed.

End Resolution.

(** C3 (amended).  For every template in which [null] does not occur,
    and every variables record, as long as no array's first element and
    no object's property ["0"] is a ['$']-string whose looked-up value is
    the one-character string ["$"] (so, whenever no path of the variables
    holds ["$"]): resolution returns a deep copy in which every string
    that starts with ['$'] is replaced by the value at the path left when
    its first two characters and its last one are dropped, and fails
    when that path is undefined in the variables; strings that do not
    start with ['$'], numbers and booleans are copied unchanged.  For a
    string of the exact form [${path}] the path is [path]. *)
Theorem resolveVariables_substitutes (_get : json -> json -> option json)
  (template variables : json) :
  contains_null template = false ->
  misread _get variables template = false ->
  resolveVariables _get template variables
  = substitute _get variables template
  /\ (forall path,
        resolveVariables _get (JStr (placeholder path)) variables
        = match _get variables (JStr path) with
          | Some value => Ok value
          | None => Throw (VariableNotDefined (JStr path))
          end)
  /\ ((forall name, _get variables name <> Some (JStr "$")) ->
      forall t,
        contains_null t = false ->
        resolveVariables _get t variables = substitute _get variables t).
Proof.
  intros Hnull Hmis. split; [now apply revive_substitute|]. split.
  - intros path. unfold resolveVariables.
    change (revive _get variables (JStr (placeholder path)))
      with (reviver _get variables (JStr (placeholder path))).
    rewrite reviver_string. cbn [substitute].
    rewrite placeholder_path. reflexivity.
  - intros Hnever t Ht. apply revive_substitute; [exact Ht|].
    now apply never_misread.
Qed.

Lemma resolveVariables_substitutes_witness :
  resolveVariables dotted_get sharedTemplate nurseVariables
  = Ok (JObj [("entityId", JObj [("$in", JArr [JStr "hta1"; JStr "shared"])]);
              ("active", JBool true)]).
Proof.
  rewrite (proj1 (resolveVariables_substitutes dotted_get sharedTemplate
                    nurseVariables eq_refl eq_refl)).
  reflexivity.
Defined.

(** C3, as stated, fails: a string that merely starts with ['$'] is not
    copied, it is read as a placeholder. *)
Lemma resolveVariables_dollar_prefix :
  (forall path, "$5 fee"%string <> placeholder path)
  /\ resolveVariables dotted_get (JStr "$5 fee") nurseVariables
     = Throw (VariableNotDefined (JStr " fe"))
  /\ (forall path, "$<user.id>"%string <> placeholder path)
  /\ resolveVariables dotted_get (JStr "$<user.id>") nurseVariables
     = Ok (JStr "uid3").
Proof.
  split; [intros path H; discriminate H|].
  split; [reflexivity|].
  split; [intros path H; discriminate H | reflexivity].
Qed.

(** ** Decoration *)

(** C2, evaluated.  [decorateUserImmutable] on the auditor of HTA1 adds no
    [ability] to the user, but it overwrites the [conditions] of the
    shared role's permission declaration with the resolved value; the
    auditor of SE1, decorated next, gets a decision object whose rule
    carries the first user's entity id. *)
Theorem decorateUserImmutable_overwrites_conditions :
  (exists iuser,
      fst (decorateUserImmutable dotted_get 0%nat sampleStore) = Ok iuser
      /\ uc_ability iuser = Some (mkAbility [Declared 0%nat]))
  /\ u_ability (users afterFirst 0%nat) = None
  /\ p_conditions (declarations sampleStore 0%nat)
     = Some (JObj [("entityId", JStr "${user.entity.id}")])
  /\ p_conditions (declarations afterFirst 0%nat)
     = Some (JObj [("entityId", JStr "hta1")])
  /\ (exists iuser st,
         decorateUserImmutable dotted_get 1%nat afterFirst = (Ok iuser, st)
         /\ uc_entity iuser = SE1
         /\ option_map (fun a => map (rule_conditions st) (rules a))
              (uc_ability iuser)
            = Some [Some (JObj [("entityId", JStr "hta1")])]).
Proof.
  split; [eexists; split; reflexivity|].
  repeat split.
  eexists. eexists. repeat split.
Qed.

(** C6, evaluated.  ["toString"] is not one of the five scope functions,
    yet [SCOPE_FUNCTIONS["toString"]] is the method every object
    inherits: decoration of a user whose role names it succeeds, by
    [decorate], [decorateUser] and [decorateUserImmutable] alike. *)
Theorem decorate_accepts_inherited_name :
  ~ In "toString"%string (map fst SCOPE_FUNCTIONS)
  /\ p_scope (declarations sampleStore 1%nat) = Some (ScopeName "toString")
  /\ fst (decorate dotted_get 2%nat sampleStore)
     = Ok (mkAbility [Scoped (Action "read") "Patient"
                        (OneScope (mkClosure 2%nat "toString")) None])
  /\ fst (decorateUser dotted_get 2%nat sampleStore) = Ok tt
  /\ (exists iuser,
         fst (decorateUserImmutable dotted_get 2%nat sampleStore) = Ok iuser).
Proof.
  split.
  - cbn. intros H. repeat (destruct H as [H|H]; [discriminate H|]). exact H.
  - repeat split. eexists. reflexivity.
Qed.

(** *** What decoration writes, and when it throws *)

Lemma only_conditions_refl (st : Store) : only_conditions_written st st.
Proof. split; [reflexivity | intros l; repeat split]. Qed.

Lemma only_conditions_trans (st1 st2 st3 : Store) :
  only_conditions_written st1 st2 ->
  only_conditions_written st2 st3 ->
  only_conditions_written st1 st3.
Proof.
  intros [Hu Hd] [Hu' Hd']. split; [congruence|].
  intros l. destruct (Hd l) as (Ha & Hs & Hc).
  destruct (Hd' l) as (Ha' & Hs' & Hc'). repeat split; congruence.
Qed.

Lemma set_conditions_frame (p : loc) (c : json) (st : Store) :
  only_conditions_written st (set_conditions p c st).
Proof.
  split; [reflexivity|]. intros l. unfold set_conditions. cbn [declarations].
  destruct (Nat.eqb_spec l p) as [->|_]; repeat split.
Qed.

Section DecorateFacts.
Variable _get : json -> json -> option json.

(** The callback leaves the store as it was or with the declaration's
    conditions replaced. *)
Lemma bind_scope_store (user p : loc) (st : Store) :
  snd (bind_scope _get user p st) = st
  \/ exists c, snd (bind_scope _get user p st) = set_conditions p c st.
Proof.
  unfold bind_scope, bindM, gets, lift, modify, ret, throw.
  destruct (p_conditions (declarations st p)) as [c|].
  - destruct (json_truthy c).
    + destruct (resolveVariables _get c _) as [c'|e]; [|now left].
      right. exists c'.
      destruct (scope_names _) as [names|]; [|reflexivity].
      destruct (find _ names); [reflexivity|].
      now destruct names as [|n [|n' names]].
    + left. destruct (scope_names _) as [names|]; [|reflexivity].
      destruct (find _ names); [reflexivity|].
      now destruct names as [|n [|n' names]].
  - left. destruct (scope_names _) as [names|]; [|reflexivity].
    destruct (find _ names); [reflexivity|].
    now destruct names as [|n [|n' names]].
Qed.

Lemma bind_scope_frame (user p : loc) (st : Store) :
  only_conditions_written st (snd (bind_scope _get user p st)).
Proof.
  destruct (bind_scope_store user p st) as [->|[c ->]].
  - apply only_conditions_refl.
  - apply set_conditions_frame.
Qed.

Lemma mapS_frame (user : loc) (l : list loc) :
  forall st, only_conditions_written st (snd (mapS (bind_scope _get user) l st)).
Proof.
  induction l as [|p rest IH]; intros st; cbn [mapS].
  - apply only_conditions_refl.
  - unfold bindM at 1.
    pose proof (bind_scope_frame user p st) as H1.
    destruct (bind_scope _get user p st) as [[r|e] st1]; cbn [snd] in H1 |- *;
      [|exact H1].
    unfold bindM. pose proof (IH st1) as H2.
    destruct (mapS (bind_scope _get user) rest st1) as [[rs|e] st2];
      cbn [snd] in H2 |- *; eapply only_conditions_trans; eauto.
Qed.

Lemma decorate_frame (user : loc) (st : Store) :
  only_conditions_written st (snd (decorate _get user st)).
Proof.
  unfold decorate, bindM, gets, ret.
  pose proof (mapS_frame user (flat_map permissions (u_roles (users st user))) st)
    as H.
  destruct (mapS _ _ st) as [[rs|e] st1]; exact H.
Qed.

(** X2.  The immutable path writes to no user object: the original gets
    no [ability], and keeps its id, entity and roles; of the permission
    declarations it changes nothing but [conditions]. *)
Lemma decorateUserImmutable_frame (user : loc) (st : Store) :
  only_conditions_written st (snd (decorateUserImmutable _get user st)).
Proof.
  unfold decorateUserImmutable, bindM, gets, ret.
  pose proof (decorate_frame user st) as H.
  destruct (decorate _get user st) as [[a|e] st1]; exact H.
Qed.

Lemma scope_names_frame (st st' : Store) (p : loc) :
  only_conditions_written st st' ->
  scope_names (declarations st' p) = scope_names (declarations st p).
Proof.
  intros [_ H]. unfold scope_names. destruct (H p) as (_ & _ & ->).
  reflexivity.
Qed.

(** On a declaration one of whose scope names is not found, the callback
    throws. *)
Lemma bind_scope_rejects (user p : loc) (st : Store)
  (fcnNames : list string) (fcnName : string) :
  scope_names (declarations st p) = Some fcnNames ->
  In fcnName fcnNames ->
  scope_found fcnName = false ->
  exists e, fst (bind_scope _get user p st) = Throw e.
Proof.
  intros Hnames Hin Hbad.
  assert (Hfind : forall st', only_conditions_written st st' ->
            exists bad, find (fun n => negb (scope_found n)) fcnNames = Some bad
                        /\ scope_names (declarations st' p) = Some fcnNames).
  { intros st' Hframe.
    destruct (find (fun n => negb (scope_found n)) fcnNames) as [bad|] eqn:Hf.
    - exists bad. split; [reflexivity|].
      now rewrite (scope_names_frame _ _ _ Hframe).
    - apply (find_none _ _ Hf) in Hin. now rewrite Hbad in Hin. }
  unfold bind_scope, bindM, gets, lift, modify, ret, throw.
  destruct (p_conditions (declarations st p)) as [c|].
  - destruct (json_truthy c).
    + destruct (resolveVariables _get c _) as [c'|e]; [|now exists e].
      destruct (Hfind _ (set_conditions_frame p c' st)) as [bad [Hf ->]].
      rewrite Hf. now exists (NoScopeDefined bad).
    + destruct (Hfind _ (only_conditions_refl st)) as [bad [Hf ->]].
      rewrite Hf. now exists (NoScopeDefined bad).
  - destruct (Hfind _ (only_conditions_refl st)) as [bad [Hf ->]].
    rewrite Hf. now exists (NoScopeDefined bad).
Qed.

Lemma mapS_rejects (user p : loc) (fcnNames : list string) (fcnName : string)
  (l : list loc) :
  In fcnName fcnNames ->
  scope_found fcnName = false ->
  In p l ->
  forall st,
    scope_names (declarations st p) = Some fcnNames ->
    exists e, fst (mapS (bind_scope _get user) l st) = Throw e.
Proof.
  intros Hin Hbad. induction l as [|q rest IH]; intros Hp st Hnames;
    [contradiction|].
  cbn [mapS]. unfold bindM at 1.
  pose proof (bind_scope_frame user q st) as Hframe.
  destruct (bind_scope _get user q st) as [[r|e] st1] eqn:Hq;
    [|now exists e].
  cbn [snd] in Hframe. destruct Hp as [->|Hp].
  - destruct (bind_scope_rejects user p st fcnNames fcnName Hnames Hin Hbad)
      as [e He].
    rewrite Hq in He. discriminate He.
  - destruct (IH Hp st1) as [e He].
    { now rewrite (scope_names_frame _ _ _ Hframe). }
    unfold bindM.
    destruct (mapS (bind_scope _get user) rest st1) as [[rs|e'] st2];
      [discriminate He | now exists e'].
Qed.

(** X1.  Eager validation, as far as it reaches: a scope that is given
    (and is not the empty string) and names a function that
    [SCOPE_FUNCTIONS] does not find makes each of the three entry points
    throw, and [decorateUser] then attaches no [ability]. *)
Lemma decorate_rejects_unknown_scope (user p : loc) (st : Store)
  (fcnNames : list string) (fcnName : string) :
  In p (flat_map permissions (u_roles (users st user))) ->
  scope_names (declarations st p) = Some fcnNames ->
  In fcnName fcnNames ->
  scope_found fcnName = false ->
  (exists e, fst (decorate _get user st) = Throw e)
  /\ (exists e, fst (decorateUser _get user st) = Throw e)
  /\ (exists e, fst (decorateUserImmutable _get user st) = Throw e)
  /\ users (snd (decorateUser _get user st)) = users st.
Proof.
  intros Hp Hnames Hin Hbad.
  assert (H : exists e, fst (decorate _get user st) = Throw e).
  { unfold decorate, bindM, gets, ret.
    destruct (mapS_rejects user p fcnNames fcnName _ Hin Hbad Hp st Hnames)
      as [e He].
    destruct (mapS _ _ st) as [[rs|e'] st1]; [discriminate He | now exists e']. }
  split; [exact H|]. destruct H as [e He].
  pose proof (decorate_frame user st) as [Hu _].
  unfold decorateUser, decorateUserImmutable, bindM, gets, ret.
  destruct (decorate _get user st) as [[a|e'] st1]; [discriminate He|].
  repeat split; try (now exists e'). exact Hu.
Qed.

End DecorateFacts.

Lemma decorate_rejects_unknown_scope_witness :
  exists e, fst (decorateUser dotted_get 2%nat misnamedStore) = Throw e.
Proof.
  apply (decorate_rejects_unknown_scope dotted_get 2%nat 1%nat misnamedStore
           ["IS_CAREGIVER"; "IS_NURSE"]%string "IS_NURSE").
  - now left.
  - reflexivity.
  - right. now left.
  - reflexivity.
Defined.

(** ** The scenarios of [t/test-changes.js]

    What the scope named by the permission in play returns in each. *)

Example nurse_scenarios :
  BELONGS_TO_SUB_ENTITIES nurseHTA1 patientHTA1 (mkRule "Patient") = Ok true
  /\ BELONGS_TO_SUB_ENTITIES nurseHTA1 patientHTA1HTA2 (mkRule "Patient") = Ok true
  /\ BELONGS_TO_SUB_ENTITIES nurseHTA1 patientSE1 (mkRule "Patient") = Ok false
  /\ IS_CAREGIVER nurseHTA1 patientHTA1 (mkRule "Patient") = Ok true
  /\ IS_CAREGIVER nurseHTA1 patientHTA1HTA2 (mkRule "Patient") = Ok false
  /\ IS_CAREGIVER nurseHTA1 patientSE1 (mkRule "Patient") = Ok false.
Proof. repeat split. Qed.

Example manager_scenarios :
  BELONGS_TO_SUB_ENTITIES managerForCVS patientHTA1 (mkRule "Patient") = Ok true
  /\ BELONGS_TO_SUB_ENTITIES managerForCVS patientHTA1HTA2 (mkRule "Patient")
     = Ok true
  /\ BELONGS_TO_SUB_ENTITIES managerForCVS patientSE1 (mkRule "Patient")
     = Ok false.
Proof. repeat split. Qed.

Example admin_scenarios :
  BELONGS_TO_ENTITY userAdminForHTA1 (userSubject nurseHTA1) (mkRule "User")
  = Ok true
  /\ BELONGS_TO_ENTITY userAdminForHTA1 (prospective "hta1") (mkRule "User")
     = Ok true
  /\ BELONGS_TO_ENTITY userAdminForHTA1 (prospective "XXX") (mkRule "User")
     = Ok false
  /\ BELONGS_TO_SUB_ENTITIES entityAdminForSM (entitySubject SmartMonitor)
       (mkRule "Entity") = Ok true
  /\ BELONGS_TO_SUB_ENTITIES entityAdminForSM (entitySubject CVS)
       (mkRule "Entity") = Ok true
  /\ BELONGS_TO_SUB_ENTITIES entityAdminForSM (entitySubject HTA1)
       (mkRule "Entity") = Ok false
  /\ BELONGS_TO_SUB_ENTITIES entityAdminForSM (userSubject managerForCVS)
       (mkRule "User") = Ok true
  /\ BELONGS_TO_SUB_ENTITIES entityAdminForSM (userSubject nurseHTA1)
       (mkRule "User") = Ok false
  /\ BELONGS_TO_SUB_ENTITIES entityAdminForSM (prospective "cvs")
       (mkRule "User") = Ok true
  /\ BELONGS_TO_SUB_ENTITIES entityAdminForSM (prospective "hta1")
       (mkRule "User") = Ok false.
Proof. repeat split. Qed.

(** ** Further properties of the scope functions *)

Lemma patient_ids (subj : Subject) :
  olist (if truthy (s_entityId subj)
         then match s_entityId subj with Some i => Some [i] | None => None end
         else s_entityIds subj)
  = (if truthy (s_entityId subj) then opt_to_list (s_entityId subj)
     else olist (s_entityIds subj)).
Proof.
  destruct (truthy (s_entityId subj)); [|reflexivity].
  now destruct (s_entityId subj).
Qed.

(** The test against a list of ids, in terms of the resolved ids. *)
Lemma entityMembership_eq (tree : list string) (subj : Subject)
  (rule : RuleContext) :
  _entityMembership tree subj rule
  = (ids <- resolvedEntityIds subj rule ;;
     Ok (existsb (fun i => mem i tree) ids)).
Proof.
  unfold _entityMembership, resolvedEntityIds.
  destruct (subject rule =? "User")%string;
    [|destruct (subject rule =? "Entity")%string;
      [|destruct (subject rule =? "Patient")%string; [|reflexivity]]].
  - destruct (or_else (s_entityId subj) (entity_id_of subj)) as [x|e];
      [|reflexivity].
    cbn [bind]. now rewrite indexOf_found.
  - destruct (or_else (s_entityId subj) (Ok (s_id subj))) as [x|e];
      [|reflexivity].
    cbn [bind]. now rewrite indexOf_found.
  - cbn [bind]. now rewrite intersection_nonempty, patient_ids.
Qed.

(** Direct membership, in terms of the resolved ids. *)
Lemma BELONGS_TO_ENTITY_eq (user : User) (subj : Subject) (rule : RuleContext) :
  BELONGS_TO_ENTITY user subj rule
  = (ids <- resolvedEntityIds subj rule ;;
     Ok (mem (e_id (u_entity user)) ids)).
Proof.
  unfold BELONGS_TO_ENTITY, resolvedEntityIds.
  destruct (subject rule =? "User")%string;
    [|destruct (subject rule =? "Entity")%string;
      [|destruct (subject rule =? "Patient")%string; [|reflexivity]]].
  - destruct (or_else (s_entityId subj) (entity_id_of subj)) as [[i|]|e];
      try reflexivity.
    cbn. now rewrite orb_false_r.
  - destruct (or_else (s_entityId subj) (Ok (s_id subj))) as [[i|]|e];
      try reflexivity.
    cbn. now rewrite orb_false_r.
  - cbn [bind]. now rewrite indexOf_opt_found, patient_ids.
Qed.

Lemma mem_singleton (x : string) (ids : list string) :
  existsb (fun i => mem i [x]) ids = mem x ids.
Proof.
  rewrite <- existsb_mem_sym. cbn [existsb]. apply orb_false_r.
Qed.

(** X4.  [BELONGS_TO_ENTITY] is the hierarchical test at depth 0: it
    returns, or throws, what [_entityMembership] does on the ids that
    [_getIds] collects with limit 0, which are the id of the user's
    entity alone. *)
Theorem BELONGS_TO_ENTITY_is_depth_zero (user : User) (subj : Subject)
  (rule : RuleContext) :
  _getIds (u_entity user) [] 0 0 = [e_id (u_entity user)]
  /\ BELONGS_TO_ENTITY user subj rule
     = _entityMembership (_getIds (u_entity user) [] 0 0) subj rule.
Proof.
  assert (H : _getIds (u_entity user) [] 0 0 = [e_id (u_entity user)])
    by (now rewrite getIds_eq).
  split; [exact H|].
  rewrite H, BELONGS_TO_ENTITY_eq, entityMembership_eq.
  destruct (resolvedEntityIds subj rule) as [ids|e]; [|reflexivity].
  cbn [bind]. now rewrite mem_singleton.
Qed.

(** X5.  When the subject's ids resolve, [BELONGS_TO_SUB_ENTITIES] returns
    a boolean, true exactly when one of them is the id of the user's
    entity or of one of its immediate children; deeper entities do not
    count. *)
Theorem BELONGS_TO_SUB_ENTITIES_one_level (user : User) (subj : Subject)
  (rule : RuleContext) (ids : list string) :
  resolvedEntityIds subj rule = Ok ids ->
  exists b,
    BELONGS_TO_SUB_ENTITIES user subj rule = Ok b
    /\ (b = true <->
        exists i, In i ids
                  /\ (i = e_id (u_entity user)
                      \/ exists c, In c (e_entities (u_entity user))
                                   /\ i = e_id c)).
Proof.
  intros Hids. rewrite BELONGS_TO_SUB_ENTITIES_eq, Hids. cbn [bind].
  eexists. split; [reflexivity|].
  rewrite existsb_mem_exists. cbn [subtreeIdsWithin].
  rewrite flat_map_singleton.
  split; intros [i [Hin Hi]]; exists i; (split; [assumption|]).
  - destruct Hi as [Hi|Hi]; [now left|]. right.
    apply in_map_iff in Hi as [c [Hc Hin']]. now exists c.
  - destruct Hi as [Hi|[c [Hc Hi]]]; [now left|]. right.
    apply in_map_iff. now exists c.
Qed.

Lemma BELONGS_TO_SUB_ENTITIES_one_level_witness :
  exists b,
    BELONGS_TO_SUB_ENTITIES entityAdminForSM (entitySubject HTA1)
      (mkRule "Entity") = Ok b
    /\ (b = true <->
        exists i, In i ["hta1"%string]
                  /\ (i = e_id SmartMonitor
                      \/ exists c, In c (e_entities SmartMonitor)
                                   /\ i = e_id c)).
Proof.
  apply (BELONGS_TO_SUB_ENTITIES_one_level entityAdminForSM
           (entitySubject HTA1) (mkRule "Entity") ["hta1"%string]).
  reflexivity.
Defined.

Lemma resolvedEntityIds_errors (subj : Subject) (rule : RuleContext) (e : exn) :
  resolvedEntityIds subj rule = Throw e ->
  e = TypeError \/ e = UnsupportedSubject (subject rule).
Proof.
  unfold resolvedEntityIds, or_else, entity_id_of.
  destruct (subject rule =? "User")%string;
    [|destruct (subject rule =? "Entity")%string;
      [|destruct (subject rule =? "Patient")%string]].
  - destruct (truthy (s_entityId subj)); [discriminate|].
    destruct (s_entity subj); [discriminate|]. intros [= <-]. now left.
  - destruct (truthy (s_entityId subj)); discriminate.
  - discriminate.
  - intros [= <-]. now right.
Qed.

Lemma bind_ok_throws {A B : Type} (m : result A) (f : A -> B) (e : exn) :
  (x <- m ;; Ok (f x)) = Throw e <-> m = Throw e.
Proof. destruct m; cbn; split; congruence. Qed.

(** X6.  The three entity-membership predicates fail together: one throws
    an exception exactly when the others throw the same, and the only
    exceptions are the [TypeError] of a missing [subject.entity] and the
    unsupported-subject error. *)
Theorem membership_predicates_fail_together (user : User) (subj : Subject)
  (rule : RuleContext) (e : exn) :
  (BELONGS_TO_ENTITY user subj rule = Throw e
   <-> BELONGS_TO_SUB_ENTITIES user subj rule = Throw e)
  /\ (BELONGS_TO_ENTITY user subj rule = Throw e
      <-> BELONGS_TO_ENTITY_TREE user subj rule = Throw e)
  /\ (BELONGS_TO_ENTITY user subj rule = Throw e ->
      e = TypeError \/ e = UnsupportedSubject (subject rule)).
Proof.
  rewrite BELONGS_TO_ENTITY_eq, BELONGS_TO_SUB_ENTITIES_eq,
    BELONGS_TO_ENTITY_TREE_eq, !bind_ok_throws.
  repeat split; try tauto. apply resolvedEntityIds_errors.
Qed.

(** X7.  A non-empty [entityId] on the subject decides alone, for each of
    the three supported types: the predicates test it against the user's
    entity (and the collected ids) without consulting [id], [entity] or
    [entityIds], and none throws. *)
Theorem prospective_entityId_decides (user : User) (subj : Subject)
  (rule : RuleContext) (i : string) :
  s_entityId subj = Some i ->
  i <> ""%string ->
  subject rule = "User"%string \/ subject rule = "Entity"%string
  \/ subject rule = "Patient"%string ->
  BELONGS_TO_ENTITY user subj rule = Ok (e_id (u_entity user) =? i)%string
  /\ BELONGS_TO_SUB_ENTITIES user subj rule
     = Ok (mem i (subtreeIdsWithin 1 (u_entity user)))
  /\ BELONGS_TO_ENTITY_TREE user subj rule
     = Ok (mem i (subtreeIdsWithin (Z.to_nat 10000) (u_entity user))).
Proof.
  intros Hid Hne Hsupported.
  assert (Hr : resolvedEntityIds subj rule = Ok [i]).
  { apply String.eqb_neq in Hne. unfold resolvedEntityIds, or_else.
    destruct Hsupported as [-> | [-> | ->]]; cbn [String.eqb Ascii.eqb Bool.eqb];
      rewrite Hid; cbn [truthy]; now rewrite Hne. }
  rewrite BELONGS_TO_ENTITY_eq, BELONGS_TO_SUB_ENTITIES_eq,
    BELONGS_TO_ENTITY_TREE_eq, Hr.
  cbn [bind existsb mem]. now rewrite !orb_false_r.
Qed.

Lemma prospective_entityId_decides_witness :
  BELONGS_TO_ENTITY nurseHTA1
    (mkSubject (Some "pid9") (Some "xxx") (Some HTA1) (Some ["hta1"])
       None None)
    (mkRule "Patient") = Ok false.
Proof.
  apply (proj1 (prospective_entityId_decides nurseHTA1
                  (mkSubject (Some "pid9") (Some "xxx") (Some HTA1)
                     (Some ["hta1"%string]) None None)
                  (mkRule "Patient") "xxx" eq_refl
                  ltac:(discriminate) (or_intror (or_intror eq_refl)))).
Defined.

(** X8.  [IS_CAREGIVER] returns true exactly when the user's id is the
    patient's [caregiverId] or one of its [caregiverIds]. *)
Theorem IS_CAREGIVER_iff (user : User) (patient : Subject) (rule : RuleContext) :
  IS_CAREGIVER user patient rule = Ok true
  <-> s_caregiverId patient = Some (u_id user)
      \/ exists l, s_caregiverIds patient = Some l /\ In (u_id user) l.
Proof.
  unfold IS_CAREGIVER, IS_PRIMARY_CAREGIVER. cbn [bind].
  assert (Hprimary : strict_eq (u_id user) (s_caregiverId patient) = true
                     <-> s_caregiverId patient = Some (u_id user)).
  { unfold strict_eq. destruct (s_caregiverId patient) as [c|].
    - rewrite String.eqb_eq. split; congruence.
    - split; discriminate. }
  destruct (strict_eq (u_id user) (s_caregiverId patient)).
  - split; [intros _; left; now apply Hprimary | reflexivity].
  - destruct (s_caregiverIds patient) as [l|].
    + rewrite indexOf_found. cbn [opt_to_list existsb]. rewrite orb_false_r.
      split.
      * intros [= H]. right. exists l. split; [reflexivity | now apply mem_In].
      * intros [H|[l' [[= <-] Hin]]].
        -- apply Hprimary in H. discriminate H.
        -- f_equal. now apply mem_In.
    + split; [discriminate|].
      intros [H|[l [H _]]]; [apply Hprimary in H|]; discriminate H.
Qed.

(** ** Further properties of the tree walker *)

(** X9.  The walk only appends: the ids already in the array stay, in
    front; what is appended does not depend on them, and is a part of the
    subtree's ids in preorder, so every id collected is the id of an
    entity of the tree. *)
Theorem getIds_appends (e : Entity) (ids : list string) (levels level : Z) :
  _getIds e ids levels level = ids ++ _getIds e [] levels level
  /\ subseq (_getIds e [] levels level) (subtreeIds e)
  /\ forall x, In x (_getIds e ids levels level) ->
               In x ids \/ In x (subtreeIds e).
Proof.
  split; [apply getIds_acc|]. split; [apply getIds_subseq|].
  intros x. rewrite getIds_acc, in_app_iff. intros [H|H]; [now left|].
  right. eapply subseq_In; [apply getIds_subseq | exact H].
Qed.

Lemma getIds_below_level (e : Entity) :
  forall levels level,
    levels < level -> _getIds e [] levels level = subtreeIds e.
Proof.
  induction e as [id name entities IH] using Entity_tree_ind.
  intros levels level Hlt. rewrite getIds_eq, subtreeIds_eq.
  cbn [e_id e_entities].
  replace (level =? levels) with false by (symmetry; apply Z.eqb_neq; lia).
  f_equal. apply flat_map_ext_Forall.
  eapply Forall_impl; [|exact IH]. intros c Hc. apply Hc. lia.
Qed.

(** X10.  A limit below the starting level is no limit: the level
    counter never equals it, and the walk collects the whole subtree.  In
    particular a negative limit, from level 0. *)
Theorem getIds_unbounded (e : Entity) (ids : list string) (levels level : Z) :
  levels < level ->
  _getIds e ids levels level = ids ++ subtreeIds e.
Proof.
  intros Hlt. now rewrite getIds_acc, getIds_below_level.
Qed.

Lemma getIds_unbounded_witness :
  _getIds SmartMonitor ["x"] (-1) 0
  = ["x"; "sm"; "cvs"; "hta1"; "hta2"; "cvsp"; "se1"; "se2"]%string.
Proof.
  rewrite (getIds_unbounded SmartMonitor ["x"%string] (-1) 0); [reflexivity|].
  lia.
Defined.

(** X11.  From level 0, a larger limit collects at least as much. *)
Theorem getIds_monotone (e : Entity) (a b : Z) :
  0 <= a -> a <= b ->
  incl (_getIds e [] a 0) (_getIds e [] b 0).
Proof.
  intros Ha Hab. rewrite !getIds_from_root by lia.
  apply subtreeIdsWithin_mono. lia.
Qed.

Lemma getIds_monotone_witness :
  incl (_getIds SmartMonitor [] 1 0) (_getIds SmartMonitor [] 10000 0).
Proof.
  apply (getIds_monotone SmartMonitor 1 10000); lia.
Defined.

(** X12.  [_entityMembership] reads the collected ids as a set: two
    lists with the same elements, whatever their order and repetitions,
    give the same result, the exception included. *)
Theorem entityMembership_set (a b : list string) (subj : Subject)
  (rule : RuleContext) :
  (forall x, In x a <-> In x b) ->
  _entityMembership a subj rule = _entityMembership b subj rule.
Proof.
  intros Hab. rewrite !entityMembership_eq.
  destruct (resolvedEntityIds subj rule) as [ids|e]; [|reflexivity].
  cbn [bind]. f_equal. apply eq_true_iff_eq.
  rewrite !existsb_mem_exists.
  split; intros [i [Hin Hi]]; exists i; (split; [assumption|]); now apply Hab.
Qed.

Lemma entityMembership_set_witness :
  _entityMembership ["a"; "b"; "a"] patientHTA1 (mkRule "Patient")
  = _entityMembership ["b"; "a"] patientHTA1 (mkRule "Patient").
Proof.
  apply (entityMembership_set ["a"; "b"; "a"]%string ["b"; "a"]%string).
  intros x. cbn. tauto.
Defined.

(** ** Further properties of template resolution *)

Lemma mapM_throws {A B : Type} (f : A -> result B) (l : list A) (x : A)
  (e : exn) :
  In x l -> f x = Throw e -> exists e', mapM f l = Throw e'.
Proof.
  induction l as [|y rest IH]; intros Hin Hx; [contradiction|].
  cbn [mapM]. destruct Hin as [->|Hin].
  - rewrite Hx. now exists e.
  - destruct (f y) as [y'|e1]; [|now exists e1].
    destruct (IH Hin Hx) as [e' ->]. now exists e'.
Qed.

Lemma mapM_id {A : Type} (f : A -> result A) (ok : A -> bool) (l : list A) :
  Forall (fun x => ok x = true -> f x = Ok x) l ->
  forallb ok l = true -> mapM f l = Ok l.
Proof.
  induction 1 as [|x rest Hx _ IH]; cbn [mapM forallb]; intros Hok;
    [reflexivity|].
  apply andb_prop in Hok as [Hx' Hrest]. now rewrite Hx, IH.
Qed.

Lemma dollar_free_not_dollar (x : json) :
  dollar_free x = true -> not_dollar (Some x) = true.
Proof.
  destruct x as [|b|n|s|items|fields]; try reflexivity.
  destruct s as [|c s]; [reflexivity|]. cbn.
  intros H. apply negb_true_iff in H. now rewrite H.
Qed.

Lemma dollar_free_assoc (key : string) (fields : list (string * json)) :
  forallb (fun kv => dollar_free (snd kv)) fields = true ->
  not_dollar (assoc key fields) = true.
Proof.
  induction fields as [|[k x] rest IH]; cbn [forallb assoc snd];
    [reflexivity|].
  intros H. apply andb_prop in H as [Hx Hrest].
  destruct (k =? key)%string; [now apply dollar_free_not_dollar | now apply IH].
Qed.

Section ResolutionFacts.
Variable _get : json -> json -> option json.
Variable variables : json.

Lemma revive_null (t : json) :
  contains_null t = true -> exists e, revive _get variables t = Throw e.
Proof.
  induction t as [|b|n|s|items IH|fields IH] using json_tree_ind;
    cbn [contains_null]; intros H; try discriminate.
  - now exists TypeError.
  - apply existsb_exists in H as [x [Hin Hx]].
    rewrite Forall_forall in IH. destruct (IH x Hin Hx) as [e He].
    cbn [revive].
    destruct (mapM_throws _ items x e Hin He) as [e' ->]. now exists e'.
  - apply existsb_exists in H as [kv [Hin Hx]].
    rewrite Forall_forall in IH. destruct (IH kv Hin Hx) as [e He].
    cbn [revive].
    destruct (mapM_throws
                (fun kv => x' <- revive _get variables (snd kv) ;; Ok (fst kv, x'))
                fields kv e Hin) as [e' ->]; [now rewrite He | now exists e'].
Qed.

Lemma revive_dollar_free (t : json) :
  dollar_free t = true -> revive _get variables t = Ok t.
Proof.
  induction t as [|b|n|s|items IH|fields IH] using json_tree_ind;
    cbn [dollar_free]; intros H; try discriminate; try reflexivity.
  - change (reviver _get variables (JStr s) = Ok (JStr s)).
    rewrite reviver_string. cbn [substitute].
    apply negb_true_iff in H. now rewrite H.
  - cbn [revive]. rewrite (mapM_id _ dollar_free items IH H). cbn [bind].
    apply (reviver_keeps _ _ _ (hd_error items)); [reflexivity|].
    destruct items as [|x rest]; [reflexivity|]. cbn [hd_error].
    cbn [forallb] in H. apply andb_prop in H as [Hx _].
    now apply dollar_free_not_dollar.
  - cbn [revive].
    rewrite (mapM_id _ (fun kv => dollar_free (snd kv)) fields).
    + cbn [bind]. apply (reviver_keeps _ _ _ (assoc "0" fields));
        [reflexivity | now apply dollar_free_assoc].
    + eapply Forall_impl; [|exact IH]. intros [k x] Hkv Hd. cbn [snd fst] in *.
      now rewrite Hkv.
    + exact H.
Qed.

End ResolutionFacts.

(** X13.  A template in which [null] occurs anywhere never resolves:
    [resolveVariables] throws, a [TypeError] when the template is [null]
    itself. *)
Theorem resolveVariables_null (_get : json -> json -> option json)
  (template variables : json) :
  contains_null template = true ->
  (exists e, resolveVariables _get template variables = Throw e)
  /\ resolveVariables _get JNull variables = Throw TypeError.
Proof.
  intros H. split; [now apply revive_null | reflexivity].
Qed.

Lemma resolveVariables_null_witness :
  exists e,
    resolveVariables dotted_get
      (JObj [("entityId", JStr "${user.entity.id}"); ("deletedAt", JNull)])
      nurseVariables = Throw e.
Proof.
  apply (proj1 (resolveVariables_null dotted_get
                  (JObj [("entityId", JStr "${user.entity.id}");
                         ("deletedAt", JNull)])
                  nurseVariables eq_refl)).
Defined.

(** X14.  A template with no [null] and no string starting with ['$']
    resolves to itself, whatever the variables and whatever the lookup
    function returns: constant conditions pass through unchanged. *)
Theorem resolveVariables_constant (_get : json -> json -> option json)
  (template variables : json) :
  dollar_free template = true ->
  resolveVariables _get template variables = Ok template.
Proof.
  intros H. now apply revive_dollar_free.
Qed.

Lemma resolveVariables_constant_witness :
  resolveVariables dotted_get
    (JObj [("entityId", JStr "hta1"); ("tags", JArr [JStr ""; JNum 0])])
    nurseVariables
  = Ok (JObj [("entityId", JStr "hta1"); ("tags", JArr [JStr ""; JNum 0])]).
Proof.
  apply (resolveVariables_constant dotted_get
           (JObj [("entityId", JStr "hta1");
                  ("tags", JArr [JStr ""; JNum 0])])
           nurseVariables eq_refl).
Defined.

(** ** Further properties of decoration *)


Lemma rule_for_frame (st st' : Store) (user p : loc) (r : Rule) :
  only_conditions_written st st' -> rule_for st' user p r -> rule_for st user p r.
Proof.
  intros [_ H] [c Hc]. destruct (H p) as (Ha & Hs & Hsc).
  exists c. now rewrite <- Ha, <- Hs, <- Hsc.
Qed.

Lemma rule_for_current (st : Store) (user p : loc) :
  rule_for st user p (rule_of user p (declarations st p)).
Proof.
  exists (p_conditions (declarations st p)). now destruct (declarations st p).
Qed.

Lemma check_scope_store (user p : loc) (st : Store) :
  snd (check_scope user p st) = st.
Proof.
  unfold check_scope. destruct (scope_names _) as [names|]; [|reflexivity].
  now destruct (find _ names).
Qed.

Lemma check_scope_ok (user p : loc) (st : Store) (r : Rule) :
  fst (check_scope user p st) = Ok r -> r = rule_of user p (declarations st p).
Proof.
  unfold check_scope, rule_of.
  destruct (scope_names (declarations st p)) as [names|].
  - destruct (find _ names); [discriminate|]. now intros [= <-].
  - now intros [= <-].
Qed.


Lemma check_scope_all_found (user p : loc) (st : Store) :
  (forall names n, scope_names (declarations st p) = Some names ->
                   In n names -> scope_found n = true) ->
  check_scope user p st = (Ok (rule_of user p (declarations st p)), st).
Proof.
  intros Hall. unfold check_scope, rule_of.
  destruct (scope_names (declarations st p)) as [names|]; [|reflexivity].
  destruct (find _ names) as [n|] eqn:Hf; [|reflexivity].
  apply find_some in Hf as [Hin Hn].
  rewrite (Hall names n eq_refl Hin) in Hn. discriminate Hn.
Qed.

Section DecorateMore.
Variable _get : json -> json -> option json.

(** The callback: the conditions are resolved and written when they are
    truthy, then the scope is checked. *)
Lemma bind_scope_cases (user p : loc) (st : Store) :
  (has_conditions (declarations st p) = false
   /\ bind_scope _get user p st = check_scope user p st)
  \/ (exists c e,
         p_conditions (declarations st p) = Some c
         /\ json_truthy c = true
         /\ resolveVariables _get c (JObj [("user", user_json st user)])
            = Throw e
         /\ bind_scope _get user p st = (Throw e, st))
  \/ (exists c c',
         p_conditions (declarations st p) = Some c
         /\ json_truthy c = true
         /\ resolveVariables _get c (JObj [("user", user_json st user)])
            = Ok c'
         /\ bind_scope _get user p st
            = check_scope user p (set_conditions p c' st)).
Proof.
  assert (Hscope : forall st1,
             (match scope_names (declarations st1 p) with
              | Some fcnNames =>
                  match find (fun n => negb (scope_found n)) fcnNames with
                  | Some n => throw (NoScopeDefined n)
                  | None =>
                      match fcnNames with
                      | [n] =>
                          ret (Scoped (p_actions (declarations st1 p))
                                 (p_subject (declarations st1 p))
                                 (OneScope (mkClosure user n))
                                 (p_conditions (declarations st1 p)))
                      | _ =>
                          ret (Scoped (p_actions (declarations st1 p))
                                 (p_subject (declarations st1 p))
                                 (ManyScopes (map (mkClosure user) fcnNames))
                                 (p_conditions (declarations st1 p)))
                      end
                  end
              | None => ret (Declared p)
              end) st1 = check_scope user p st1).
  { intros st1. unfold check_scope, rule_of, bound_scope, ret, throw.
    destruct (scope_names (declarations st1 p)) as [names|]; [|reflexivity].
    destruct (find _ names); [reflexivity|].
    now destruct names as [|n [|n' names]]. }
  unfold has_conditions, bind_scope, bindM, gets, lift, modify.
  destruct (p_conditions (declarations st p)) as [c|].
  - destruct (json_truthy c) eqn:Htruthy.
    + destruct (resolveVariables _get c _) as [c'|e] eqn:Hres.
      * right. right. exists c, c'. repeat split; try assumption.
        apply Hscope.
      * right. left. exists c, e. repeat split; assumption.
    + left. split; [reflexivity|]. apply (Hscope st).
  - left. split; [reflexivity|]. apply (Hscope st).
Qed.

Lemma set_conditions_at (p : loc) (c : json) (st : Store) :
  declarations (set_conditions p c st) p
  = mkPermission (p_actions (declarations st p)) (p_subject (declarations st p))
      (p_scope (declarations st p)) (Some c).
Proof. unfold set_conditions. cbn [declarations]. now rewrite Nat.eqb_refl. Qed.

Lemma set_conditions_other (p q : loc) (c : json) (st : Store) :
  p <> q -> declarations (set_conditions q c st) p = declarations st p.
Proof.
  intros H. unfold set_conditions. cbn [declarations].
  now apply Nat.eqb_neq in H as ->.
Qed.

Lemma bind_scope_ok (user p : loc) (st : Store) (r : Rule) :
  fst (bind_scope _get user p st) = Ok r -> rule_for st user p r.
Proof.
  destruct (bind_scope_cases user p st)
    as [[_ ->] | [(c & e & _ & _ & _ & ->) | (c & c' & _ & _ & _ & ->)]].
  - intros H. apply check_scope_ok in H as ->. apply rule_for_current.
  - discriminate.
  - intros H. apply check_scope_ok in H as ->.
    apply (rule_for_frame _ (set_conditions p c' st));
      [apply set_conditions_frame | apply rule_for_current].
Qed.

Lemma mapS_rules (user : loc) (l : list loc) :
  forall st rs,
    fst (mapS (bind_scope _get user) l st) = Ok rs ->
    Forall2 (rule_for st user) l rs.
Proof.
  induction l as [|p rest IH]; intros st rs; cbn [mapS].
  - intros [= <-]. constructor.
  - unfold bindM at 1.
    pose proof (bind_scope_ok user p st) as Hp.
    pose proof (bind_scope_frame _get user p st) as Hframe.
    destruct (bind_scope _get user p st) as [[r|e] st1]; [|discriminate].
    cbn [fst snd] in Hp, Hframe. unfold bindM.
    pose proof (IH st1) as Hrest.
    destruct (mapS (bind_scope _get user) rest st1) as [[rs'|e] st2];
      [|discriminate].
    cbn [fst ret]. intros [= <-]. constructor; [now apply Hp|].
    eapply Forall2_impl; [|apply Hrest; reflexivity].
    intros q r'. now apply rule_for_frame.
Qed.

(** X15.  On success the decision object holds one rule per permission
    declaration of the user's roles, in role order and then declaration
    order, none merged, dropped or moved: a declaration without scope is
    handed over as the object itself, one with scope as a new rule with
    its actions and subject and one closure per scope name, in order,
    each over this user. *)
Theorem decorate_keeps_order (user : loc) (st : Store) (a : Ability) :
  fst (decorate _get user st) = Ok a ->
  Forall2 (rule_for st user) (permissions_of st user) (rules a).
Proof.
  unfold decorate, permissions_of, bindM, gets, ret.
  pose proof (mapS_rules user (flat_map permissions (u_roles (users st user))) st)
    as H.
  destruct (mapS _ _ st) as [[rs|e] st1]; [|discriminate].
  intros [= <-]. now apply H.
Qed.

Lemma bind_scope_static (user p : loc) (st : Store) :
  has_conditions (declarations st p) = false ->
  bind_scope _get user p st = check_scope user p st.
Proof.
  intros H.
  destruct (bind_scope_cases user p st)
    as [[_ ->] | [(c & e & Hc & Ht & _) | (c & c' & Hc & Ht & _)]];
    [reflexivity | |];
    unfold has_conditions in H; rewrite Hc, Ht in H; discriminate H.
Qed.

Lemma mapS_static (user : loc) (l : list loc) (st : Store) :
  (forall p, In p l -> has_conditions (declarations st p) = false) ->
  snd (mapS (bind_scope _get user) l st) = st.
Proof.
  induction l as [|p rest IH]; intros Hl; [reflexivity|].
  cbn [mapS]. unfold bindM at 1.
  rewrite (bind_scope_static user p st) by (apply Hl; now left).
  pose proof (check_scope_store user p st) as Hst.
  destruct (check_scope user p st) as [[r|e] st1]; cbn [snd] in Hst; subst st1;
    [|reflexivity].
  unfold bindM. assert (IH' := IH (fun q Hq => Hl q (or_intror Hq))).
  destruct (mapS (bind_scope _get user) rest st) as [[rs|e] st2];
    exact IH'.
Qed.

(** X16.  When none of the user's permission declarations has (truthy)
    conditions, decoration writes nothing to the store: [decorate] and
    [decorateUserImmutable] leave it as it was, and [decorateUser] leaves
    every declaration as it was. *)
Theorem decorate_without_conditions (user : loc) (st : Store) :
  (forall p, In p (permissions_of st user) ->
             has_conditions (declarations st p) = false) ->
  snd (decorate _get user st) = st
  /\ snd (decorateUserImmutable _get user st) = st
  /\ declarations (snd (decorateUser _get user st)) = declarations st.
Proof.
  intros Hstatic.
  assert (H : snd (decorate _get user st) = st).
  { unfold decorate, bindM, gets, ret.
    pose proof (mapS_static user _ st Hstatic) as H.
    unfold permissions_of in H.
    destruct (mapS _ _ st) as [[rs|e] st1]; exact H. }
  split; [exact H|].
  unfold decorateUserImmutable, decorateUser, bindM, gets, ret, modify.
  destruct (decorate _get user st) as [[a|e] st1]; cbn [snd] in H; subst st1;
    repeat split.
Qed.

Lemma mapS_all_found (user : loc) (l : list loc) (st : Store) :
  (forall p, In p l -> has_conditions (declarations st p) = false) ->
  (forall p names n, In p l -> scope_names (declarations st p) = Some names ->
                     In n names -> scope_found n = true) ->
  mapS (bind_scope _get user) l st
  = (Ok (map (fun p => rule_of user p (declarations st p)) l), st).
Proof.
  induction l as [|p rest IH]; intros Hstatic Hfound; [reflexivity|].
  cbn [mapS map]. unfold bindM at 1.
  rewrite (bind_scope_static user p st) by (apply Hstatic; now left).
  rewrite check_scope_all_found
    by (intros names n; apply Hfound; now left).
  unfold bindM. rewrite IH; [reflexivity | |].
  - intros q Hq. apply Hstatic. now right.
  - intros q names n Hq. apply Hfound. now right.
Qed.

(** X17.  When none of the user's permission declarations has conditions
    and every scope name they give is found by [SCOPE_FUNCTIONS], as in
    the roles of the test file, [decorate] succeeds, writes nothing, and
    returns the rule of each declaration in order. *)
Theorem decorate_well_configured (user : loc) (st : Store) :
  (forall p, In p (permissions_of st user) ->
             has_conditions (declarations st p) = false) ->
  (forall p names n, In p (permissions_of st user) ->
                     scope_names (declarations st p) = Some names ->
                     In n names -> scope_found n = true) ->
  decorate _get user st
  = (Ok (mkAbility (map (fun p => rule_of user p (declarations st p))
                      (permissions_of st user))), st).
Proof.
  intros Hstatic Hfound. unfold decorate, bindM, gets.
  fold (permissions_of st user).
  now rewrite (mapS_all_found user _ st Hstatic Hfound).
Qed.

End DecorateMore.

Lemma decorate_keeps_order_witness :
  exists a,
    fst (decorate dotted_get 0%nat testStore) = Ok a
    /\ Forall2 (rule_for testStore 0%nat) [0%nat; 1%nat; 2%nat] (rules a).
Proof.
  eexists. split; [reflexivity|].
  apply (decorate_keeps_order dotted_get 0%nat testStore). reflexivity.
Defined.

Lemma testStore_static (user : loc) :
  forall p, In p (permissions_of testStore user) ->
            has_conditions (declarations testStore p) = false.
Proof.
  intros p _. unfold has_conditions, testStore. cbn [declarations].
  now destruct p as [|[|[|p]]].
Qed.

Lemma decorate_without_conditions_witness :
  snd (decorate dotted_get 0%nat testStore) = testStore
  /\ snd (decorateUserImmutable dotted_get 0%nat testStore) = testStore
  /\ declarations (snd (decorateUser dotted_get 0%nat testStore))
     = declarations testStore.
Proof.
  apply (decorate_without_conditions dotted_get 0%nat testStore).
  apply testStore_static.
Defined.

Lemma decorate_well_configured_witness :
  decorate dotted_get 0%nat testStore
  = (Ok (mkAbility
           [Scoped (Action "read") "Patient"
              (OneScope (mkClosure 0%nat "BELONGS_TO_SUB_ENTITIES")) None;
            Scoped (Action "create") "Patient"
              (ManyScopes [mkClosure 0%nat "IS_PRIMARY_CAREGIVER";
                           mkClosure 0%nat "BELONGS_TO_SUB_ENTITIES"]) None;
            Scoped (Action "update") "Patient"
              (OneScope (mkClosure 0%nat "IS_CAREGIVER")) None]),
     testStore).
Proof.
  rewrite (decorate_well_configured dotted_get 0%nat testStore).
  - reflexivity.
  - apply testStore_static.
  - intros p names n Hp Hnames Hin. cbn in Hp.
    destruct Hp as [<-|[<-|[<-|[]]]]; cbn in Hnames; injection Hnames as <-;
      cbn in Hin; intuition (subst; reflexivity).
Defined.

Section EntryPoints.
Variable _get : json -> json -> option json.

(** X18.  [decorateUser] changes, of the users, only the [ability] of the
    one decorated, and only on success: it then holds the decision object
    [decorate] returned.  The user's id, entity and roles, every other
    user, and (when [decorate] throws) the user's previous [ability] stay;
    the declarations are as [decorate] left them. *)
Theorem decorateUser_attaches (user : loc) (st : Store) :
  (forall l, l <> user ->
             users (snd (decorateUser _get user st)) l = users st l)
  /\ u_id (users (snd (decorateUser _get user st)) user) = u_id (users st user)
  /\ u_entity (users (snd (decorateUser _get user st)) user)
     = u_entity (users st user)
  /\ u_roles (users (snd (decorateUser _get user st)) user)
     = u_roles (users st user)
  /\ declarations (snd (decorateUser _get user st))
     = declarations (snd (decorate _get user st))
  /\ match fst (decorate _get user st) with
     | Ok a =>
         fst (decorateUser _get user st) = Ok tt
         /\ u_ability (users (snd (decorateUser _get user st)) user) = Some a
     | Throw e =>
         fst (decorateUser _get user st) = Throw e
         /\ u_ability (users (snd (decorateUser _get user st)) user)
            = u_ability (users st user)
     end.
Proof.
  pose proof (decorate_frame _get user st) as [Hu _].
  unfold decorateUser, bindM, modify, set_ability.
  destruct (decorate _get user st) as [[a|e] st1]; cbn [fst snd users declarations] in *.
  - rewrite Hu, Nat.eqb_refl. repeat split.
    intros l Hl. now apply Nat.eqb_neq in Hl as ->.
  - rewrite Hu. repeat split.
Qed.

(** X19.  The immutable path and the mutating path agree: they make the
    same writes to the declarations, fail with the same exception, and on
    success the copy carries the decision object that [decorateUser]
    would attach.  The rest of the copy is the user as before the call:
    its roles hold the declarations with their conditions not yet
    resolved. *)
Theorem decorateUserImmutable_agrees (user : loc) (st : Store) :
  declarations (snd (decorateUserImmutable _get user st))
  = declarations (snd (decorateUser _get user st))
  /\ match fst (decorateUserImmutable _get user st) with
     | Ok iuser =>
         fst (decorateUser _get user st) = Ok tt
         /\ uc_ability iuser
            = u_ability (users (snd (decorateUser _get user st)) user)
         /\ uc_id iuser = u_id (users st user)
         /\ uc_entity iuser = u_entity (users st user)
         /\ uc_roles iuser
            = map (fun r => mkRoleCopy (role_name r)
                              (map (declarations st) (permissions r)))
                (u_roles (users st user))
     | Throw e => fst (decorateUser _get user st) = Throw e
     end.
Proof.
  unfold decorateUserImmutable, decorateUser, bindM, gets, modify, ret,
    set_ability, _cloneDeep.
  destruct (decorate _get user st) as [[a|e] st1];
    cbn [fst snd users declarations uc_ability uc_id uc_entity uc_roles
         u_ability].
  - rewrite Nat.eqb_refl. repeat split.
  - repeat split.
Qed.






Lemma bind_scope_other (user p q : loc) (st : Store) :
  p <> q ->
  declarations (snd (bind_scope _get user q st)) p = declarations st p.
Proof.
  intros Hpq. destruct (bind_scope_store _get user q st) as [->|[c ->]];
    [reflexivity | now apply set_conditions_other].
Qed.

Lemma bind_scope_null (user p : loc) (st : Store) (c : json) :
  p_conditions (declarations st p) = Some c ->
  json_truthy c = true ->
  contains_null c = true ->
  exists e, fst (bind_scope _get user p st) = Throw e.
Proof.
  intros Hc Ht Hnull.
  destruct (revive_null _get (JObj [("user", user_json st user)]) c Hnull)
    as [e He].
  destruct (bind_scope_cases _get user p st)
    as [[H _] | [(c1 & e1 & Hc1 & _ & _ & ->) | (c1 & c' & Hc1 & _ & Hres & _)]].
  - unfold has_conditions in H. rewrite Hc, Ht in H. discriminate H.
  - now exists e1.
  - rewrite Hc in Hc1. injection Hc1 as <-.
    unfold resolveVariables in Hres. rewrite He in Hres. discriminate Hres.
Qed.

Lemma mapS_null (user p : loc) (c : json) (l : list loc) :
  json_truthy c = true ->
  contains_null c = true ->
  In p l ->
  forall st,
    p_conditions (declarations st p) = Some c ->
    exists e, fst (mapS (bind_scope _get user) l st) = Throw e.
Proof.
  intros Ht Hnull. induction l as [|q rest IH]; intros Hin st Hc;
    [contradiction|].
  cbn [mapS]. unfold bindM at 1.
  destruct (Nat.eq_dec p q) as [<-|Hpq].
  - destruct (bind_scope_null user p st c Hc Ht Hnull) as [e He].
    destruct (bind_scope _get user p st) as [[r|e1] st1]; cbn [fst] in He;
      [discriminate He | now exists e1].
  - pose proof (bind_scope_other user p q st Hpq) as Hsame.
    destruct (bind_scope _get user q st) as [[r|e1] st1]; cbn [snd] in Hsame;
      [|now exists e1].
    destruct Hin as [->|Hin]; [contradiction|].
    destruct (IH Hin st1) as [e He]; [now rewrite Hsame|].
    unfold bindM.
    destruct (mapS (bind_scope _get user) rest st1) as [[rs|e2] st2];
      [discriminate He | now exists e2].
Qed.

(** X21.  Conditions in which [null] occurs make decoration fail: a user
    one of whose permission declarations has such conditions cannot be
    decorated, by any of the three entry points. *)
Theorem decorate_null_conditions (user p : loc) (st : Store) (c : json) :
  In p (permissions_of st user) ->
  p_conditions (declarations st p) = Some c ->
  json_truthy c = true ->
  contains_null c = true ->
  (exists e, fst (decorate _get user st) = Throw e)
  /\ (exists e, fst (decorateUser _get user st) = Throw e)
  /\ (exists e, fst (decorateUserImmutable _get user st) = Throw e).
Proof.
  intros Hp Hc Ht Hnull.
  assert (H : exists e, fst (decorate _get user st) = Throw e).
  { unfold decorate, bindM, gets, ret.
    destruct (mapS_null user p c _ Ht Hnull Hp st Hc) as [e He].
    destruct (mapS _ _ st) as [[rs|e'] st1]; [discriminate He | now exists e']. }
  split; [exact H|]. destruct H as [e He].
  unfold decorateUser, decorateUserImmutable, bindM, gets, ret.
  destruct (decorate _get user st) as [[a|e'] st1]; [discriminate He|].
  split; now exists e'.
Qed.

End EntryPoints.


Lemma decorate_null_conditions_witness :
  exists e, fst (decorateUser dotted_get 0%nat nullStore) = Throw e.
Proof.
  apply (decorate_null_conditions dotted_get 0%nat 0%nat nullStore
           (JObj [("entityId", JStr "${user.entity.id}"); ("deletedAt", JNull)])).
  - now left.
  - reflexivity.
  - reflexivity.
  - reflexivity.
Defined.

Section Writes.
Variable _get : json -> json -> option json.

Lemma bind_scope_settled (user p : loc) (st : Store) :
  settled (declarations st p) = true ->
  forall l, declarations (snd (bind_scope _get user p st)) l = declarations st l.
Proof.
  intros Hs l.
  destruct (bind_scope_cases _get user p st)
    as [[_ ->] | [(c & e & _ & _ & _ & ->) | (c & c' & Hc & Ht & Hres & ->)]].
  - now rewrite check_scope_store.
  - reflexivity.
  - rewrite check_scope_store.
    unfold settled in Hs. rewrite Hc, Ht in Hs. cbn [negb orb] in Hs.
    unfold resolveVariables in Hres.
    rewrite (revive_dollar_free _get _ c Hs) in Hres. injection Hres as <-.
    destruct (Nat.eq_dec l p) as [->|Hl].
    + rewrite set_conditions_at, <- Hc. now destruct (declarations st p).
    + now apply set_conditions_other.
Qed.

Lemma mapS_settled (user : loc) (l : list loc) :
  forall st,
    (forall p, In p l -> settled (declarations st p) = true) ->
    forall q,
      declarations (snd (mapS (bind_scope _get user) l st)) q = declarations st q.
Proof.
  induction l as [|p rest IH]; intros st Hl q; [reflexivity|].
  cbn [mapS]. unfold bindM at 1.
  pose proof (bind_scope_settled user p st (Hl p (or_introl eq_refl))) as Hp.
  destruct (bind_scope _get user p st) as [[r|e] st1]; cbn [snd] in Hp |- *;
    [|apply Hp].
  unfold bindM.
  assert (Hrest : forall p', In p' rest -> settled (declarations st1 p') = true).
  { intros p' Hin. rewrite Hp. apply Hl. now right. }
  pose proof (IH st1 Hrest q) as Hq.
  destruct (mapS (bind_scope _get user) rest st1) as [[rs|e] st2];
    unfold ret; cbn [snd] in Hq |- *; rewrite Hq; apply Hp.
Qed.

(** X22.  Conditions that hold no placeholder are never rewritten: when
    each of the user's permission declarations has no truthy conditions,
    or conditions with neither [null] nor a string starting with ['$'],
    decoration leaves every declaration as it was.  So conditions already
    resolved for one user stay as they are when another holder of the
    role is decorated. *)
Theorem decorate_settled (user : loc) (st : Store) :
  (forall p, In p (permissions_of st user) ->
             settled (declarations st p) = true) ->
  forall q,
    declarations (snd (decorate _get user st)) q = declarations st q
    /\ declarations (snd (decorateUser _get user st)) q = declarations st q
    /\ declarations (snd (decorateUserImmutable _get user st)) q
       = declarations st q.
Proof.
  intros Hs q.
  assert (H : declarations (snd (decorate _get user st)) q = declarations st q).
  { unfold decorate, bindM, gets, ret.
    pose proof (mapS_settled user _ st Hs q) as H. unfold permissions_of in H.
    destruct (mapS _ _ st) as [[rs|e] st1]; exact H. }
  split; [exact H|].
  unfold decorateUser, decorateUserImmutable, bindM, gets, ret, modify.
  destruct (decorate _get user st) as [[a|e] st1]; cbn [snd] in H |- *;
    split; exact H.
Qed.

Lemma mapS_other (user p : loc) (l : list loc) :
  ~ In p l ->
  forall st,
    declarations (snd (mapS (bind_scope _get user) l st)) p = declarations st p.
Proof.
  induction l as [|q rest IH]; intros Hnotin st; [reflexivity|].
  cbn [mapS]. unfold bindM at 1.
  assert (Hpq : p <> q) by (intros ->; apply Hnotin; now left).
  pose proof (bind_scope_other _get user p q st Hpq) as Hq.
  destruct (bind_scope _get user q st) as [[r|e] st1]; cbn [snd] in Hq |- *;
    [|exact Hq].
  unfold bindM.
  assert (Hrest : ~ In p rest) by (intros H; apply Hnotin; now right).
  pose proof (IH Hrest st1) as H1.
  destruct (mapS (bind_scope _get user) rest st1) as [[rs|e] st2];
    unfold ret; cbn [snd] in H1 |- *; congruence.
Qed.

Lemma decorate_store (user : loc) (st : Store) :
  snd (decorate _get user st)
  = snd (mapS (bind_scope _get user) (permissions_of st user) st).
Proof.
  unfold decorate, permissions_of, bindM, gets, ret.
  now destruct (mapS _ _ st) as [[rs|e] st1].
Qed.

(** X23.  Decoration is not undone when it fails: when the user's first
    permission declaration occurs only once among the user's declarations
    and its truthy conditions resolve, the resolved value is written to
    the declaration and is still there after [decorate], whether the rest
    of the decoration succeeds or throws (the scope of that very
    declaration may be the one that is not found). *)
Theorem decorate_writes_stay (user p : loc) (rest : list loc) (st : Store)
  (c c' : json) :
  permissions_of st user = p :: rest ->
  ~ In p rest ->
  p_conditions (declarations st p) = Some c ->
  json_truthy c = true ->
  resolveVariables _get c (JObj [("user", user_json st user)]) = Ok c' ->
  p_conditions (declarations (snd (decorate _get user st)) p) = Some c'.
Proof.
  intros Hperms Hnotin Hc Ht Hres.
  rewrite decorate_store, Hperms. cbn [mapS]. unfold bindM at 1.
  assert (Hp : bind_scope _get user p st
               = check_scope user p (set_conditions p c' st)).
  { destruct (bind_scope_cases _get user p st)
      as [[H _] | [(c1 & e & Hc1 & _ & Hres1 & _) | (c1 & c1' & Hc1 & _ & Hres1 & ->)]].
    - unfold has_conditions in H. rewrite Hc, Ht in H. discriminate H.
    - rewrite Hc in Hc1. injection Hc1 as <-. congruence.
    - rewrite Hc in Hc1. injection Hc1 as <-. congruence. }
  rewrite Hp. pose proof (check_scope_store user p (set_conditions p c' st)) as Hst.
  destruct (check_scope user p (set_conditions p c' st)) as [[r|e] st1];
    cbn [snd] in Hst; subst st1.
  - unfold bindM.
    pose proof (mapS_other user p rest Hnotin (set_conditions p c' st)) as Hrest.
    destruct (mapS (bind_scope _get user) rest (set_conditions p c' st))
      as [[rs|e] st2]; unfold ret; cbn [snd] in Hrest |- *;
      now rewrite Hrest, set_conditions_at.
  - cbn [snd]. now rewrite set_conditions_at.
Qed.

End Writes.

Lemma decorate_settled_witness :
  declarations (snd (decorateUserImmutable dotted_get 1%nat afterFirst)) 0%nat
  = declarations afterFirst 0%nat.
Proof.
  apply (decorate_settled dotted_get 1%nat afterFirst).
  intros p [<-|[]]. reflexivity.
Defined.

Lemma decorate_writes_stay_witness :
  fst (decorate dotted_get 0%nat brokenStore) = Throw (NoScopeDefined "IS_NURSE")
  /\ p_conditions (declarations (snd (decorate dotted_get 0%nat brokenStore)) 0%nat)
     = Some (JObj [("entityId", JStr "hta1")]).
Proof.
  split; [reflexivity|].
  apply (decorate_writes_stay dotted_get 0%nat 0%nat [] brokenStore
           (JObj [("entityId", JStr "${user.entity.id}")])).
  - reflexivity.
  - intros [].
  - reflexivity.
  - reflexivity.
  - reflexivity.
Defined.

(** X24.  On a shallow hierarchy the predicates coincide: for a user
    whose entity has no children all three entity-membership predicates
    return (or throw) the same, and as long as the user's entity has no
    grandchildren [BELONGS_TO_ENTITY_TREE] is [BELONGS_TO_SUB_ENTITIES]. *)
Theorem shallow_hierarchy (user : User) (subj : Subject) (rule : RuleContext) :
  (e_entities (u_entity user) = [] ->
   BELONGS_TO_SUB_ENTITIES user subj rule = BELONGS_TO_ENTITY user subj rule
   /\ BELONGS_TO_ENTITY_TREE user subj rule = BELONGS_TO_ENTITY user subj rule)
  /\ ((depth (u_entity user) <= 1)%nat ->
      BELONGS_TO_ENTITY_TREE user subj rule
      = BELONGS_TO_SUB_ENTITIES user subj rule).
Proof.
  rewrite BELONGS_TO_ENTITY_eq, BELONGS_TO_SUB_ENTITIES_eq,
    BELONGS_TO_ENTITY_TREE_eq.
  split.
  - intros Hleaf.
    assert (Hdepth : depth (u_entity user) = 0%nat)
      by (destruct (u_entity user); cbn in Hleaf; now subst).
    assert (Hall : subtreeIds (u_entity user) = [e_id (u_entity user)])
      by (now rewrite subtreeIds_eq, Hleaf).
    rewrite !subtreeIdsWithin_saturates by lia. rewrite Hall.
    destruct (resolvedEntityIds subj rule) as [ids|e]; [|now split].
    cbn [bind]. now rewrite mem_singleton.
  - intros Hdepth. now rewrite !subtreeIdsWithin_saturates by lia.
Qed.

Lemma shallow_hierarchy_witness :
  BELONGS_TO_ENTITY_TREE nurseHTA1 patientSE1 (mkRule "Patient")
  = BELONGS_TO_ENTITY nurseHTA1 patientSE1 (mkRule "Patient")
  /\ BELONGS_TO_ENTITY_TREE managerForCVS patientSE1 (mkRule "Patient")
     = BELONGS_TO_SUB_ENTITIES managerForCVS patientSE1 (mkRule "Patient").
Proof.
  split.
  - apply (proj1 (shallow_hierarchy nurseHTA1 patientSE1 (mkRule "Patient"))).
    reflexivity.
  - apply (proj2 (shallow_hierarchy managerForCVS patientSE1 (mkRule "Patient"))).
    apply Nat.leb_le. reflexivity.
Defined.
